(** * Transaction analytics of [src/App.tsx]

    A shallow embedding of the analytics core of the statement reader:
    [performAdvancedAnalytics], [getChartData] and [getAnalyticsSummary],
    of the handlers that change the state of the component and of the
    text of the export, together with the fragment of the ECMAScript
    library they call.

    Conventions of the embedding.
    - A JavaScript [number] is a binary64 value: the primitive type [float].
      Arithmetic is the primitive IEEE arithmetic; [Math.pow (x, 2)], which
      ECMAScript leaves implementation-approximated, is taken to be the
      correctly rounded square [x * x].
    - A JavaScript string is a [string] whose characters are read as the
      code points U+0000..U+00FF.  The upper-case form of such a string may
      leave this range; it is kept as the list of its code units.
    - Counters that only ever hold small non-negative integers (occurrence
      counts, array lengths, indices) are [nat]; binary64 is exact on them.
    - A [Map] is an association list in insertion order.
    - [Array.prototype.sort] is a stable insertion sort.  ECMAScript fixes
      the result of a sort (sorted and stable) whenever the comparator is
      consistent; with an inconsistent comparator the order is
      implementation-defined and the model does not give it, so every
      statement about the order of a sorted array carries the hypothesis
      that makes the comparator consistent.
    - A time value is an integer number of milliseconds, [None] standing
      for the [NaN] of an invalid date.  [Date.parse] is modelled on the
      date-only form [YYYY-MM-DD]; its value on any other string is a
      parameter of [getAnalyticsSummary]. *)

From Stdlib Require Import ZArith QArith Qpower Qround List String Ascii Bool Lia.
From Stdlib Require Import Floats Permutation Sorted.
From Stdlib Require Import DecimalString.
From Stdlib Require DecimalPos DecimalN.
Import ListNotations.

#[local] Set Warnings "-inexact-float".

Close Scope Q_scope.
Open Scope list_scope.
Open Scope string_scope.

(** ** The ECMAScript library fragment *)

Module JS.

(** *** Strings *)

Definition code (c : ascii) : N := N_of_ascii c.

Definition is_digit (c : ascii) : bool :=
  ((48 <=? code c) && (code c <=? 57))%N.

(** [WhiteSpace] and [LineTerminator] code points below U+0100. *)
Definition is_space (c : ascii) : bool :=
  let n := code c in
  (((9 <=? n) && (n <=? 13)) || (n =? 32) || (n =? 160))%N.

(** Lower-case mapping of a code point below U+0100. *)
Definition lower_char (c : ascii) : ascii :=
  let n := code c in
  if (((65 <=? n) && (n <=? 90))
      || ((192 <=? n) && (n <=? 222) && negb (n =? 215)))%N
  then ascii_of_N (n + 32) else c.

(** The code units of a string; a result of upper-casing may hold code
    units beyond U+00FF and is kept as the list of its code units. *)
Definition units (s : string) : list N := map code (list_ascii_of_string s).

(** Upper-case mapping of a code point below U+0100: U+00B5 becomes U+039C,
    U+00DF becomes the two letters SS and U+00FF becomes U+0178. *)
Definition upper_char (c : ascii) : list N :=
  let n := code c in
  if (n =? 181)%N then [924%N]
  else if (n =? 223)%N then [83%N; 83%N]
  else if (n =? 255)%N then [376%N]
  else if (((97 <=? n) && (n <=? 122))
           || ((224 <=? n) && (n <=? 254) && negb (n =? 247)))%N
  then [(n - 32)%N] else [n].

Fixpoint toLowerCase (s : string) : string :=
  match s with
  | EmptyString => EmptyString
  | String c r => String (lower_char c) (toLowerCase r)
  end.

(** [s.replace(/\d+/g, '')]: every maximal run of decimal digits is deleted. *)
Fixpoint strip_digits (s : string) : string :=
  match s with
  | EmptyString => EmptyString
  | String c r => if is_digit c then strip_digits r else String c (strip_digits r)
  end.

Fixpoint trimStart (s : string) : string :=
  match s with
  | EmptyString => EmptyString
  | String c r => if is_space c then trimStart r else s
  end.

Fixpoint all_space (s : string) : bool :=
  match s with
  | EmptyString => true
  | String c r => is_space c && all_space r
  end.

Fixpoint trimEnd (s : string) : string :=
  match s with
  | EmptyString => EmptyString
  | String c r => if all_space s then EmptyString else String c (trimEnd r)
  end.

Definition trim (s : string) : string := trimEnd (trimStart s).

Fixpoint repeat_char (c : ascii) (n : nat) : string :=
  match n with
  | O => EmptyString
  | S k => String c (repeat_char c k)
  end.

Definition take (n : nat) (s : string) : string := substring 0 n s.
Definition drop (n : nat) (s : string) : string := substring n (length s - n) s.

(** *** Numbers *)

Definition NaN : float := nan.

(** The decimal digits of a non-negative integer. *)
Definition digits_of (z : Z) : string :=
  NilZero.string_of_uint (N.to_uint (Z.to_N z)).

(** The exact value [m * 2 ^ e] of a finite binary64 number. *)
Definition exact (m : positive) (e : Z) : Q := (inject_Z (Zpos m) * Qpower 2 e)%Q.

Definition Qltb (a b : Q) : bool :=
  match Qcompare a b with Lt => true | _ => false end.

Definition Qleb (a b : Q) : bool :=
  match Qcompare a b with Gt => false | _ => true end.

Definition ten (n : Z) : Q := Qpower 10 n.

(** The least [n], searching upwards from [n], with [v < 10 ^ n]. *)
Fixpoint magnitude10 (fuel : nat) (n : Z) (v : Q) : Z :=
  match fuel with
  | O => n
  | S f => if Qltb v (ten n) then n else magnitude10 f (n + 1) v
  end.

(** A starting point below the decimal magnitude of [m * 2 ^ e], from its
    binary magnitude ([log10 2] is a little less than [0.30103]). *)
Definition magnitude10_start (m : positive) (e : Z) : Z :=
  ((Z.log2 (Zpos m) + e) * 30103 / 100000 - 1)%Z.

(** The real numbers that round to the binary64 number [m * 2 ^ e]: an
    interval around it, closed exactly when [m] is even. *)
Definition rounds_to (m : positive) (e : Z) (q : Q) : bool :=
  let v := exact m e in
  let up := (Qpower 2 e / 2)%Q in
  let down :=
    if ((Zpos m =? 2 ^ 52) && (-1074 <? e))%Z then (Qpower 2 e / 4)%Q else up in
  if Z.even (Zpos m)
  then Qleb (v - down)%Q q && Qleb q (v + up)%Q
  else Qltb (v - down)%Q q && Qltb q (v + up)%Q.

(** One attempt of step 5 of [Number::toString] with [k] digits: an [s] of
    [k] digits and an [n] with [s * 10 ^ (n - k)] rounding to the number,
    the closest to it when there are two (the even one on a tie). *)
Definition shortest_at (m : positive) (e : Z) (n0 k : Z) : option (Z * Z) :=
  let v := exact m e in
  let scale := ten (n0 - k) in
  let lo := Qfloor (v / scale)%Q in
  let hi := (lo + 1)%Z in
  let oklo := rounds_to m e (inject_Z lo * scale)%Q in
  let okhi := rounds_to m e (inject_Z hi * scale)%Q in
  let pick (s : Z) :=
    if (s =? 10 ^ k)%Z then Some ((n0 + 1)%Z, (10 ^ (k - 1))%Z) else Some (n0, s) in
  match oklo, okhi with
  | true, true =>
      match Qcompare (v - inject_Z lo * scale)%Q (inject_Z hi * scale - v)%Q with
      | Lt => pick lo
      | Gt => pick hi
      | Eq => if Z.even lo then pick lo else pick hi
      end
  | true, false => pick lo
  | false, true => pick hi
  | false, false => None
  end.

Fixpoint shortest_from (fuel : nat) (m : positive) (e : Z) (n0 k : Z) : Z * Z * Z :=
  match fuel with
  | O => (n0, k, 0%Z)
  | S f =>
      match shortest_at m e n0 k with
      | Some (n, s) => (n, k, s)
      | None => shortest_from f m e n0 (k + 1)
      end
  end.

(** [(n, k, s)] of step 5 of [Number::toString] for [m * 2 ^ e]. *)
Definition shortest (m : positive) (e : Z) : Z * Z * Z :=
  shortest_from 17 m e (magnitude10 8 (magnitude10_start m e) (exact m e)) 1.

(** Steps 6 to 10 of [Number::toString]. *)
Definition format_number (n k s : Z) : string :=
  let d := digits_of s in
  if ((k <=? n) && (n <=? 21))%Z
  then d ++ repeat_char "0" (Z.to_nat (n - k))
  else if ((0 <? n) && (n <=? 21))%Z
  then take (Z.to_nat n) d ++ "." ++ drop (Z.to_nat n) d
  else if ((-6 <? n) && (n <=? 0))%Z
  then "0." ++ repeat_char "0" (Z.to_nat (- n)) ++ d
  else
    let ex := (n - 1)%Z in
    let sg := if (ex <? 0)%Z then "-" else "+" in
    let mant := if (k =? 1)%Z then d else take 1 d ++ "." ++ drop 1 d in
    mant ++ "e" ++ sg ++ digits_of (Z.abs ex).

(** [Number::toString (x, 10)], the conversion a template literal applies. *)
Definition Number_toString (x : float) : string :=
  match Prim2SF x with
  | S754_nan => "NaN"
  | S754_zero _ => "0"
  | S754_infinity s => if s then "-Infinity" else "Infinity"
  | S754_finite s m e =>
      let '(n, k, d) := shortest m e in
      (if s then "-" else "") ++ format_number n k d
  end.

(** The binary64 number nearest to [num / den] (ties to even), with the sign
    [neg]; this is the value of a decimal literal. *)
Definition nearest (neg : bool) (num : Z) (den : positive) : float :=
  match num with
  | Zpos p => SF2Prim (SFdiv prec emax (S754_finite neg p 0) (S754_finite false den 0))
  | _ => if neg then neg_zero else zero
  end.

(** The digits of [n] with a decimal point before the last [f] of them:
    step 10 of [Number.prototype.toFixed]. *)
Definition fixed_digits (n : Z) (f : nat) : string :=
  let m := digits_of n in
  match f with
  | O => m
  | _ =>
      let m := if (length m <=? f)%nat then repeat_char "0" (f + 1 - length m) ++ m else m in
      take (length m - f) m ++ "." ++ drop (length m - f) m
  end.

(** [x.toFixed(f)]: the [n] with [n / 10 ^ f] closest to the exact value of
    [|x|], the larger one on a tie. *)
Definition toFixed (x : float) (f : nat) : string :=
  match Prim2SF x with
  | S754_nan => "NaN"
  | S754_infinity s => if s then "-Infinity" else "Infinity"
  | S754_zero _ => fixed_digits 0 f
  | S754_finite s m e =>
      let v := exact m e in
      (if s then "-" else "") ++
      (if Qleb (ten 21) v then Number_toString (abs x)
       else fixed_digits (Qfloor (v * ten (Z.of_nat f) + (1 # 2))%Q) f)
  end.

Fixpoint span_digits (s : string) : string * string :=
  match s with
  | EmptyString => (EmptyString, EmptyString)
  | String c r =>
      if is_digit c then let '(d, t) := span_digits r in (String c d, t)
      else (EmptyString, s)
  end.

Fixpoint digits_value (acc : Z) (s : string) : Z :=
  match s with
  | EmptyString => acc
  | String c r => digits_value (acc * 10 + (Z.of_N (code c) - 48)) r
  end.

(** An optional sign in front of a literal. *)
Definition split_sign (s : string) : bool * string :=
  match s with
  | String "-" r => (true, r)
  | String "+" r => (false, r)
  | _ => (false, s)
  end.

(** The exponent part of a [StrDecimalLiteral], 0 when there is none. *)
Definition exponent_part (s : string) : Z :=
  match s with
  | String c r =>
      if (Ascii.eqb c "e" || Ascii.eqb c "E")%bool then
        let '(neg, r) := split_sign r in
        let '(d, _) := span_digits r in
        match d with
        | EmptyString => 0%Z
        | _ => if neg then (- digits_value 0 d)%Z else digits_value 0 d
        end
      else 0%Z
  | EmptyString => 0%Z
  end.

(** The digits after the decimal point, when there is one. *)
Definition fraction_part (s : string) : string * string :=
  match s with
  | String "." r => span_digits r
  | _ => (EmptyString, s)
  end.

(** [parseFloat(input)]: the longest prefix of the trimmed input that is a
    [StrDecimalLiteral], [NaN] when there is none. *)
Definition parseFloat (input : string) : float :=
  let '(neg, s) := split_sign (trimStart input) in
  if prefix "Infinity" s then (if neg then neg_infinity else infinity)
  else
    let '(ip, r1) := span_digits s in
    let '(fp, r2) := fraction_part r1 in
    match ip ++ fp with
    | EmptyString => NaN
    | ds =>
        let ex := (exponent_part r2 - Z.of_nat (length fp))%Z in
        let d := digits_value 0 ds in
        if (0 <=? ex)%Z then nearest neg (d * 10 ^ ex) 1
        else nearest neg d (Z.to_pos (10 ^ (- ex)))
    end.

(** The number of elements of an array, as a number. *)
Definition of_nat (n : nat) : float := of_uint63 (Uint63.of_Z (Z.of_nat n)).

(** [v || 0] on a number: a falsy number (zero or [NaN]) becomes [0]. *)
Definition or_zero (v : float) : float :=
  if (is_nan v || is_zero v)%bool then zero else v.

(** *** Maps

    [Map<string, V>]: keys in insertion order; [set] on a present key keeps
    its place. *)

Section Maps.
Context {V : Type}.

Definition Map := list (string * V).

Fixpoint Map_get (k : string) (m : Map) : option V :=
  match m with
  | [] => None
  | (k', v) :: r => if String.eqb k k' then Some v else Map_get k r
  end.

Fixpoint Map_set (k : string) (v : V) (m : Map) : Map :=
  match m with
  | [] => [(k, v)]
  | (k', v') :: r =>
      if String.eqb k k' then (k, v) :: r else (k', v') :: Map_set k v r
  end.

Definition Map_has (k : string) (m : Map) : bool :=
  match Map_get k m with Some _ => true | None => false end.
End Maps.

Arguments Map V : clear implicits.

(** *** Sorting

    [after x y] says that the comparator's value on [(x, y)] is positive,
    which is when [y] is moved in front of [x]; on a zero value the two
    keep their order.  [Array.prototype.sort] is stable, so with a
    consistent comparator its result is determined, and it is the result
    of the insertion sort below.  With a comparator that is not consistent
    (one whose value is [NaN] on some pairs only, as with an invalid date
    among valid ones) the order is left to the engine and [sort] does not
    give it: a statement about the order of a sorted array carries the
    hypothesis that makes the comparator consistent, and only the elements
    of the result are stated without it. *)

Section Sorting.
Context {A : Type} (after : A -> A -> bool).

Fixpoint insert (x : A) (l : list A) : list A :=
  match l with
  | [] => [x]
  | y :: r => if after x y then y :: insert x r else x :: l
  end.

Definition sort (l : list A) : list A := fold_right insert [] l.
End Sorting.

(** *** Dates

    [new Date(s).getTime()] is [None] for an invalid date ([NaN]) and else
    the time value, an integral number of milliseconds.  ECMAScript fixes
    the value for the date-only form [YYYY-MM-DD] of a calendar day; every
    other string is left to the parameter [other]. *)

Definition days_in_month (y m : Z) : Z :=
  if (m =? 2)%Z then
    if (((y mod 4 =? 0) && negb (y mod 100 =? 0)) || (y mod 400 =? 0))%Z
    then 29%Z else 28%Z
  else if ((m =? 4) || (m =? 6) || (m =? 9) || (m =? 11))%Z then 30%Z
  else 31%Z.

(** Days between 1970-01-01 and the day [d] of month [m] of year [y]. *)
Definition days_from_civil (y m d : Z) : Z :=
  let y' := if (m <=? 2)%Z then (y - 1)%Z else y in
  let era := (y' / 400)%Z in
  let yoe := (y' - era * 400)%Z in
  let mp := if (2 <? m)%Z then (m - 3)%Z else (m + 9)%Z in
  let doy := ((153 * mp + 2) / 5 + d - 1)%Z in
  let doe := (yoe * 365 + yoe / 4 - yoe / 100 + doy)%Z in
  (era * 146097 + doe - 719468)%Z.

Definition all_digits (s : string) : bool :=
  match span_digits s with
  | (_, EmptyString) => true
  | _ => false
  end.

Definition parse_date_only (s : string) : option Z :=
  if ((length s =? 10)%nat && all_digits (substring 0 4 s)
      && String.eqb (substring 4 1 s) "-" && all_digits (substring 5 2 s)
      && String.eqb (substring 7 1 s) "-" && all_digits (substring 8 2 s))%bool
  then
    let y := digits_value 0 (substring 0 4 s) in
    let m := digits_value 0 (substring 5 2 s) in
    let d := digits_value 0 (substring 8 2 s) in
    if ((1 <=? m) && (m <=? 12) && (1 <=? d) && (d <=? days_in_month y m))%Z
    then Some (days_from_civil y m d * 86400000)%Z
    else None
  else None.

Definition Date_getTime (other : string -> option Z) (s : string) : option Z :=
  match parse_date_only s with
  | Some t => Some t
  | None => other s
  end.

(** The comparator [(a, b) => ta - tb] on two time values is positive when
    both are valid and [tb < ta]; time values are integers below [2 ^ 53]
    in magnitude, on which the sign of the binary64 difference is the sign
    of the exact one. *)
Definition time_after (ta tb : option Z) : bool :=
  match ta, tb with
  | Some a, Some b => (b <? a)%Z
  | _, _ => false
  end.

(** *** Objects used as dictionaries

    [Object.entries] lists array-index keys first, in ascending numeric
    order, then the other keys in creation order. *)

Definition is_array_index (k : string) : bool :=
  (all_digits k && negb (String.eqb k "")
   && (String.eqb k "0" || negb (prefix "0" k))
   && (length k <=? 10)%nat && (digits_value 0 k <=? 4294967294)%Z)%bool.

Definition index_after {V : Type} (a b : string * V) : bool :=
  (digits_value 0 (fst b) <? digits_value 0 (fst a))%Z.

Definition Object_entries {V : Type} (o : Map V) : list (string * V) :=
  (sort index_after (filter (fun kv => is_array_index (fst kv)) o)
   ++ filter (fun kv => negb (is_array_index (fst kv))) o)%list.

(** The property names every object inherits from [Object.prototype]; a
    read of one of them on [{}] does not yield [undefined]. *)
Definition Object_prototype_names : list string :=
  ["constructor"; "hasOwnProperty"; "isPrototypeOf"; "propertyIsEnumerable";
   "toLocaleString"; "toString"; "valueOf"; "__proto__"; "__defineGetter__";
   "__defineSetter__"; "__lookupGetter__"; "__lookupSetter__"].

Definition inherited (k : string) : bool :=
  existsb (String.eqb k) Object_prototype_names.

End JS.

Import JS.

(** ** The data model *)

(** [interface Transaction]; the three analytics fields are optional. *)
Record Transaction := mkTransaction {
  date : string;
  description : string;
  amount : float;
  category : string;
  notes : string;
  duplicateFlag : option bool;
  anomalyScore : option float;
  isRecurring : option bool
}.

(** A record as the extractor delivers it, without analytics fields. *)
Definition raw (d desc : string) (a : float) (c n : string) : Transaction :=
  mkTransaction d desc a c n None None None.

(** ** [performAdvancedAnalytics] *)

(** The template literal [`${t.date}-${t.description}-${t.amount}`]. *)
Definition key (t : Transaction) : string :=
  date t ++ "-" ++ description t ++ "-" ++ Number_toString (amount t).

Definition count_of (o : option nat) : nat :=
  match o with Some n => n | None => 0 end.

(** The map [seen] after the first [forEach]. *)
Definition seen_of (data : list Transaction) : Map nat :=
  fold_left (fun seen t => Map_set (key t) (count_of (Map_get (key t) seen) + 1) seen)
            data [].

Definition amounts_of (data : list Transaction) : list float :=
  map (fun t => abs (amount t)) data.

Definition mean_of (data : list Transaction) : float :=
  (fold_left (fun a b => a + b) (amounts_of data) 0
   / of_nat (List.length (amounts_of data)))%float.

(** [Math.pow(x, 2)]. *)
Definition pow2 (x : float) : float := (x * x)%float.

Definition variance_of (data : list Transaction) : float :=
  (fold_left (fun a b => a + pow2 (b - mean_of data)) (amounts_of data) 0
   / of_nat (List.length (amounts_of data)))%float.

Definition stdDev_of (data : list Transaction) : float :=
  sqrt (variance_of data).

(** [s.toLowerCase().replace(/\d+/g, '').trim()]. *)
Definition normalize (s : string) : string :=
  trim (strip_digits (toLowerCase s)).

Definition normalizedDesc (t : Transaction) : string :=
  normalize (description t).

(** One step of the second [forEach]: the group of the normalized
    description is created when absent, then the amount is pushed on it. *)
Definition group_step (g : Map (list float)) (t : Transaction) : Map (list float) :=
  let k := normalizedDesc t in
  let g := if Map_has k g then g else Map_set k [] g in
  match Map_get k g with
  | Some l => Map_set k (l ++ [abs (amount t)])%list g
  | None => g
  end.

Definition descGroups_of (data : list Transaction) : Map (list float) :=
  fold_left group_step data [].

Definition score_of (data : list Transaction) (t : Transaction) : float :=
  if (0 <? stdDev_of data)%float
  then ((abs (amount t) - mean_of data) / stdDev_of data)%float
  else 0%float.

(** The callback of the final [data.map]. *)
Definition analyzed (data : list Transaction) (t : Transaction) : Transaction :=
  let amountsInGroup :=
    match Map_get (normalizedDesc t) (descGroups_of data) with
    | Some l => l
    | None => []
    end in
  {| date := date t;
     description := description t;
     amount := amount t;
     category := category t;
     notes := notes t;
     duplicateFlag := Some (1 <? count_of (Map_get (key t) (seen_of data)))%nat;
     anomalyScore := Some (parseFloat (toFixed (score_of data t) 2));
     isRecurring := Some (2 <=? List.length amountsInGroup)%nat |}.

Definition performAdvancedAnalytics (data : list Transaction) : list Transaction :=
  match data with
  | [] => []
  | _ => map (analyzed data) data
  end.

(** ** [getChartData] *)

(** The name of an entry is kept as its code units (see [JS.upper_char]). *)
Record ChartEntry := mkChartEntry { name : list N; value : float }.

(** The [forEach] of [getChartData] on the object [spendingByCategory].
    A read of a name inherited from [Object.prototype] does not yield
    [undefined], and the sum is then a string.  On [__proto__] the write
    of a string is dropped by the setter, and the object stays as it is.
    On the other inherited names the write creates the property with a
    string value, on which the later [value.toFixed] raises [TypeError]:
    this is [None]. *)
Definition spending_step (o : option (Map float)) (t : Transaction)
  : option (Map float) :=
  match o with
  | None => None
  | Some m =>
      if (amount t <? 0)%float then
        let c := toLowerCase (category t) in
        if String.eqb c "__proto__" then Some m
        else if inherited c then None
        else
          let old := match Map_get c m with Some v => or_zero v | None => 0%float end in
          Some (Map_set c (old + abs (amount t))%float m)
      else Some m
  end.

(** [name.charAt(0).toUpperCase() + name.slice(1)]. *)
Definition capitalize (s : string) : list N :=
  match s with
  | EmptyString => []
  | String c r => (upper_char c ++ units r)%list
  end.

(** The callback of the [map] over the entries. *)
Definition chart_entries (l : list (string * float)) : list ChartEntry :=
  map (fun kv => mkChartEntry (capitalize (fst kv)) (parseFloat (toFixed (snd kv) 2))) l.

(** [None] stands for the [TypeError] (see [spending_step]). *)
Definition getChartData (transactions : list Transaction)
  : option (list ChartEntry) :=
  match fold_left spending_step transactions (Some []) with
  | None => None
  | Some o =>
      Some (sort (fun a b => 0 <? value b - value a)%float
                 (chart_entries (Object_entries o)))
  end.

(** ** [getAnalyticsSummary] *)

Record Spike := mkSpike { spike_date : string; spike_amount : float }.

Record Anomaly := mkAnomaly { index : nat; score : float; desc : string }.

Record Summary := mkSummary {
  totalRecords : nat;
  totalSpending : float;
  totalIncome : float;
  duplicates : nat;
  suspicious : nat;
  highest : option Transaction;
  lowest : option Transaction;
  spikesData : list Spike;
  anomalyData : list Anomaly
}.

(** [t.anomalyScore || 0]. *)
Definition score_or_zero (t : Transaction) : float :=
  match anomalyScore t with
  | Some v => or_zero v
  | None => 0%float
  end.

Definition truthy (o : option bool) : bool :=
  match o with Some b => b | None => false end.

Definition spike_step (m : Map float) (t : Transaction) : Map float :=
  if (amount t <? 0)%float then
    let old := match Map_get (date t) m with Some v => or_zero v | None => 0%float end in
    Map_set (date t) (old + abs (amount t))%float m
  else m.

Definition spikesMap_of (transactions : list Transaction) : Map float :=
  fold_left spike_step transactions [].

Fixpoint with_index {A : Type} (i : nat) (l : list A) : list (nat * A) :=
  match l with
  | [] => []
  | x :: r => (i, x) :: with_index (S i) r
  end.

Section Summary.
(** [Date.parse] outside the date-only form (see [JS.Date_getTime]). *)
Variable other : string -> option Z.

Definition spike_after (a b : Spike) : bool :=
  time_after (Date_getTime other (spike_date a)) (Date_getTime other (spike_date b)).

Definition getAnalyticsSummary (transactions : list Transaction) : option Summary :=
  match transactions with
  | [] => None
  | _ =>
      Some {|
        totalRecords := List.length transactions;
        totalSpending :=
          fold_left (fun acc t => acc + abs (amount t))%float
                    (filter (fun t => amount t <? 0)%float transactions) 0%float;
        totalIncome :=
          fold_left (fun acc t => acc + amount t)%float
                    (filter (fun t => 0 <? amount t)%float transactions) 0%float;
        duplicates :=
          List.length (filter (fun t => truthy (duplicateFlag t)) transactions);
        suspicious :=
          List.length (filter (fun t => 2 <? score_or_zero t)%float transactions);
        highest :=
          hd_error (sort (fun a b => 0 <? amount b - amount a)%float transactions);
        lowest :=
          hd_error (sort (fun a b => 0 <? amount a - amount b)%float transactions);
        spikesData :=
          sort spike_after
               (map (fun kv => mkSpike (fst kv) (snd kv)) (spikesMap_of transactions));
        anomalyData :=
          filter (fun d => 1 <? score d)%float
                 (map (fun it => mkAnomaly (fst it) (score_or_zero (snd it)) (description (snd it)))
                      (with_index 0 transactions))
      |}
  end.
End Summary.

(** ** The application state and its handlers

    The state of the component: the [useState] cells.  A handler is a
    function from the state at the render in which it was created to the
    state after its updates. *)

(** The fields of a [File] the handlers read. *)
Record File := mkFile { file_name : string; file_type : string }.

Record AppState := mkState {
  files : list File;
  isExtracting : bool;
  transactions : list Transaction;
  error : option string;
  progress : string;
  completedCount : nat
}.

Definition initialState : AppState := mkState [] false [] None "" 0.

(** [f.type === 'application/pdf' || f.type.startsWith('image/')]. *)
Definition validFile (f : File) : bool :=
  String.eqb (file_type f) "application/pdf" || prefix "image/" (file_type f).

(** [processFiles], which [handleFileChange] and [handleDrop] call. *)
Definition processFiles (st : AppState) (newFiles : list File) : AppState :=
  let validFiles := filter validFile newFiles in
  let err :=
    if (List.length validFiles =? List.length newFiles)%nat then None
    else Some "Some files were skipped. Please upload only PDFs or images." in
  if (0 <? List.length validFiles)%nat
  then mkState (files st ++ validFiles)%list (isExtracting st) [] err (progress st) 0
  else mkState (files st) (isExtracting st) (transactions st) err (progress st)
               (completedCount st).

(** [l.filter((_, i) => i !== index)]. *)
Definition remove_at {A : Type} (index : nat) (l : list A) : list A :=
  map snd (filter (fun p => negb (fst p =? index)%nat) (with_index 0 l)).

Definition removeFile (st : AppState) (index : nat) : AppState :=
  if (List.length (files st) =? 1)%nat
  then mkState (remove_at index (files st)) (isExtracting st) [] None (progress st) 0
  else mkState (remove_at index (files st)) (isExtracting st) (transactions st)
               (error st) (progress st) (completedCount st).

(** What the awaited steps of one iteration of [extractTransactions]
    deliver: the parsed response, a response without text, or an exception
    with its [message] ([None] for [undefined]). *)
Inductive FileOutcome :=
| Parsed (parsedData : list Transaction)
| NoText
| Thrown (message : option string).

(** [err.message || 'Unknown error']. *)
Definition message_or_unknown (m : option string) : string :=
  match m with
  | Some EmptyString | None => "Unknown error"
  | Some s => s
  end.

Section Extraction.
(** [Date.parse] outside the date-only form (see [JS.Date_getTime]). *)
Variable other : string -> option Z.
(** The outcome of the iteration [i], on the file [f]. *)
Variable outcome : nat -> File -> FileOutcome.

(** The comparator of [analyzed.sort] is positive on [(a, b)] when the
    date of [b] is later than the date of [a]. *)
Definition later_first (a b : Transaction) : bool :=
  time_after (Date_getTime other (date b)) (Date_getTime other (date a)).

(** [performAdvancedAnalytics(allTransactions)] followed by the sort.  The
    comparator is consistent when every date is valid, or none is; with an
    invalid date among valid ones the order of the result is the engine's
    (see [JS.sort]), and only its elements are those of the model. *)
Definition analyzeAndSort (allTransactions : list Transaction) : list Transaction :=
  sort later_first (performAdvancedAnalytics allTransactions).

(** The [for] loop from the iteration [i] on, with its [catch] and
    [finally]; [stale] is the [completedCount] of the render that created
    the handler, which is what the [catch] block reads. *)
Fixpoint extract_loop (stale i : nat) (fs : list File)
         (allTransactions : list Transaction) (st : AppState) : AppState :=
  match fs with
  | [] =>
      mkState (files st) false (transactions st) (error st)
              "Batch extraction complete!" (completedCount st)
  | currentFile :: rest =>
      let progress' := "Processing " ++ file_name currentFile ++ "..." in
      match outcome i currentFile with
      | Thrown m =>
          mkState (files st) false (transactions st)
                  (Some ("Error processing file " ++ digits_of (Z.of_nat (stale + 1))
                         ++ ": " ++ message_or_unknown m))
                  progress' (completedCount st)
      | NoText =>
          extract_loop stale (S i) rest allTransactions
            (mkState (files st) (isExtracting st) (transactions st) (error st)
                     progress' (i + 1))
      | Parsed parsedData =>
          let all' := (allTransactions ++ parsedData)%list in
          extract_loop stale (S i) rest all'
            (mkState (files st) (isExtracting st) (analyzeAndSort all') (error st)
                     progress' (i + 1))
      end
  end.

Definition extractTransactions (st : AppState) : AppState :=
  match files st with
  | [] => st
  | _ =>
      extract_loop (completedCount st) 0 (files st) []
        (mkState (files st) true [] None (progress st) 0)
  end.
End Extraction.

(** ** [downloadCSV] *)

(** The double quote and the line feed. *)
Definition dquote : ascii := ascii_of_N 34.
Definition newline : ascii := ascii_of_N 10.

(** The [replace] of the export: every double quote becomes two double
    quotes. *)
Fixpoint escape_quotes (s : string) : string :=
  match s with
  | EmptyString => EmptyString
  | String c r =>
      if Ascii.eqb c dquote then String dquote (String dquote (escape_quotes r))
      else String c (escape_quotes r)
  end.

(** The template literal that wraps the escaped text in double quotes. *)
Definition quoted (s : string) : string :=
  String dquote (escape_quotes s ++ String dquote EmptyString).

(** [l.join(sep)] on strings. *)
Fixpoint join (sep : string) (l : list string) : string :=
  match l with
  | [] => EmptyString
  | [x] => x
  | x :: r => x ++ sep ++ join sep r
  end.

Definition csv_row (t : Transaction) : string :=
  join "," [date t; quoted (description t); Number_toString (amount t);
            category t; quoted (notes t)].

(** The text handed to the [Blob]; [None] when the handler returns at
    once. *)
Definition csvContent (ts : list Transaction) : option string :=
  match ts with
  | [] => None
  | _ =>
      Some (join (String newline EmptyString)
                 (join "," ["Date"; "Description"; "Amount"; "Category"; "Notes"]
                  :: map csv_row ts))
  end.

(** ** Vocabulary of the statements *)

(** The number [x] is finite and not zero, or infinite, and has the sign
    [s]. *)
Definition signed (s : bool) (x : spec_float) : Prop :=
  match x with
  | S754_finite s' _ _ | S754_infinity s' => s' = s
  | _ => False
  end.

(** An order-embedding of the binary64 numbers other than NaN into the
    integers: a finite number is sent to its value scaled by [2 ^ 1074]. *)
Definition rank (x : spec_float) : Z :=
  match x with
  | S754_zero _ | S754_nan => 0%Z
  | S754_infinity s => cond_Zopp s (2 ^ 2098)%Z
  | S754_finite s m e => cond_Zopp s (Zpos m * 2 ^ (e + 1074))%Z
  end.

(** The rank of a primitive number. *)
Definition frank (a : float) : Z := rank (Prim2SF a).

(** A number is positive when it is finite or infinite with sign [+]. *)
Definition positive_float (v : float) : Prop := signed false (Prim2SF v).

(** Every value held by the map is positive. *)
Definition map_positive (m : Map float) : Prop :=
  forall k v, Map_get k m = Some v -> positive_float v.


(** On the list [l] the comparator orders by the integer key [k]. *)
Definition keyed_on {A : Type} (after : A -> A -> bool) (k : A -> Z)
           (l : list A) : Prop :=
  forall x y, In x l -> In y l -> after x y = (k y <? k x)%Z.

(** The number of records of [data] that [f] sends to [k]. *)
Definition occurrences (f : Transaction -> string) (k : string)
           (data : list Transaction) : nat :=
  List.length (filter (fun t => String.eqb (f t) k) data).

(** Date, description and amount agree, the amount as numbers ([===]) or as
    the very same value. *)
Definition same_triple (a b : Transaction) : Prop :=
  date a = date b /\ description a = description b
  /\ (amount a = amount b \/ (amount a =? amount b)%float = true).

(** The number of amounts pushed on the group of [k]. *)
Definition group_size (g : Map (list float)) (k : string) : nat :=
  match Map_get k g with Some l => List.length l | None => 0 end.

(** A charge and a refund of the same day whose descriptions differ by a
    trailing hyphen. *)
Definition collision_batch : list Transaction :=
  [raw "2024-01-01" "Store" (-20) "shopping" "";
   raw "2024-01-01" "Store-" 20 "shopping" ""].







(** Three purchases of 0.99. *)
Definition equal_batch : list Transaction :=
  [raw "2024-01-01" "App 1" (-0.99) "entertainment" "";
   raw "2024-01-02" "App 2" (-0.99) "entertainment" "";
   raw "2024-01-03" "App 3" (-0.99) "entertainment" ""].

(** Two transfers of 1e308. *)
Definition overflow_batch : list Transaction :=
  [raw "2024-01-01" "Transfer" 1e308 "other" "";
   raw "2024-01-02" "Transfer" 1e308 "other" ""].



(** A batch of deposits only. *)
Definition income_batch : list Transaction :=
  [raw "2024-01-31" "Salary" 2500 "salary" "";
   raw "2024-02-02" "Refund" 19.99 "shopping" ""].




(** A batch in which the largest and the smallest amount occur twice. *)
Definition tie_batch : list Transaction :=
  [raw "2024-01-01" "Lunch" (-20) "dining" "";
   raw "2024-01-02" "Salary" 2500 "salary" "";
   raw "2024-01-03" "Bonus" 2500 "salary" "";
   raw "2024-01-04" "Snack" (-20) "dining" ""].

(** The two Netflix descriptions, with another record between them. *)
Definition netflix_batch : list Transaction :=
  [raw "2024-01-05" "Netflix Subscription 123" (-15.99) "entertainment" "";
   raw "2024-01-09" "Bakery" (-4.5) "groceries" "";
   raw "2024-02-05" "netflix subscription 456" (-17.99) "entertainment" ""].

(** A record entered twice, with another record between the copies. *)
Definition duplicate_batch : list Transaction :=
  [raw "2024-03-01" "Gym 24" (-30) "health" "";
   raw "2024-03-02" "Taxi" (-12.5) "transport" "";
   raw "2024-03-01" "Gym 24" (-30) "health" "entered twice"].

(** The string starts with white space. *)
Definition head_space (s : string) : bool :=
  match s with
  | String c _ => is_space c
  | EmptyString => false
  end.

(** The string ends with white space. *)
Fixpoint last_space (s : string) : bool :=
  match s with
  | EmptyString => false
  | String c EmptyString => is_space c
  | String _ r => last_space r
  end.

(** The normalization in the words of the specification.  First every
    character is lower-cased and the decimal digits are left out. *)
Definition lowered_without_digits (s : string) : string :=
  string_of_list_ascii
    (filter (fun c => negb (is_digit c)) (map lower_char (list_ascii_of_string s))).

(** Then the white space at both ends is trimmed: [n] is [w] without a
    run of white space before it and a run of white space after it, and
    [n] neither starts nor ends with white space. *)
Definition trimmed_form (w n : string) : Prop :=
  head_space n = false /\ last_space n = false
  /\ exists l r, all_space l = true /\ all_space r = true /\ w = l ++ n ++ r.

Definition normalization_of (s n : string) : Prop :=
  trimmed_form (lowered_without_digits s) n.

(** A subscription written with white space around it, with digits and in
    capitals, with another record between the two. *)
Definition spaced_batch : list Transaction :=
  [raw "2024-03-01" "  Spotify 0042 " (-9.99) "entertainment" "";
   raw "2024-03-15" "Bakery" (-4.5) "groceries" "";
   raw "2024-04-01" "SPOTIFY" (-9.99) "entertainment" ""].

(** ** Vocabulary of the further properties *)

(** A record without its anomaly score. *)
Definition flags (t : Transaction)
  : string * string * float * string * string * option bool * option bool :=
  (date t, description t, amount t, category t, notes t,
   duplicateFlag t, isRecurring t).

(** Every character of the string satisfies [p]. *)
Fixpoint all_chars (p : ascii -> bool) (s : string) : bool :=
  match s with
  | EmptyString => true
  | String c r => p c && all_chars p r
  end.

(** Five small purchases and one large payment, analysed. *)
Definition scored_batch : list Transaction :=
  performAdvancedAnalytics
    [raw "2024-01-01" "Tea" (-1) "dining" ""; raw "2024-01-02" "Tea" (-1) "dining" "";
     raw "2024-01-03" "Tea" (-1) "dining" ""; raw "2024-01-04" "Tea" (-1) "dining" "";
     raw "2024-01-05" "Tea" (-1) "dining" ""; raw "2024-01-06" "Rent" (-1000) "bills" ""].

(** The records with a negative amount. *)
Definition spending (ts : list Transaction) : list Transaction :=
  filter (fun t => (amount t <? 0)%float) ts.



(** The number of files read, from the iteration [i] on, before the first
    exception. *)
Fixpoint processed (outcome : nat -> File -> FileOutcome) (i : nat)
         (fs : list File) : nat :=
  match fs with
  | [] => 0
  | f :: r =>
      match outcome i f with
      | Thrown _ => 0
      | _ => S (processed outcome (S i) r)
      end
  end.

(** The records parsed, from the iteration [i] on, before the first
    exception. *)
Fixpoint gathered (outcome : nat -> File -> FileOutcome) (i : nat)
         (fs : list File) : list Transaction :=
  match fs with
  | [] => []
  | f :: r =>
      match outcome i f with
      | Thrown _ => []
      | NoText => gathered outcome (S i) r
      | Parsed l => (l ++ gathered outcome (S i) r)%list
      end
  end.

(** What the user does: choosing or dropping files, removing a file from
    the list, running the extraction with some outcomes. *)
Inductive Action :=
| AddFiles (newFiles : list File)
| RemoveFile (index : nat)
| Extract (outcome : nat -> File -> FileOutcome).

Definition act (other : string -> option Z) (st : AppState) (a : Action) : AppState :=
  match a with
  | AddFiles l => processFiles st l
  | RemoveFile i => removeFile st i
  | Extract outcome => extractTransactions other outcome st
  end.

(** The record carries the three analytics fields. *)
Definition analysed (t : Transaction) : Prop :=
  duplicateFlag t <> None /\ anomalyScore t <> None /\ isRecurring t <> None.

(** What holds of the state between two actions. *)
Definition consistent (st : AppState) : Prop :=
  Forall (fun f => validFile f = true) (files st)
  /\ (files st = [] -> transactions st = [] /\ completedCount st = 0)
  /\ isExtracting st = false
  /\ Forall analysed (transactions st).

(** A reader of a quoted field: after the opening double quote, two double
    quotes stand for one and a single one ends the field; the result is
    the text of the field and what follows it. *)
Fixpoint read_body (s : string) : option (string * string) :=
  match s with
  | EmptyString => None
  | String c r =>
      if Ascii.eqb c dquote then
        match r with
        | String c' r' =>
            if Ascii.eqb c' dquote then
              match read_body r' with
              | Some (b, rest) => Some (String dquote b, rest)
              | None => None
              end
            else Some (EmptyString, r)
        | EmptyString => Some (EmptyString, EmptyString)
        end
      else
        match read_body r with
        | Some (b, rest) => Some (String c b, rest)
        | None => None
        end
  end.

Definition read_quoted (s : string) : option (string * string) :=
  match s with
  | String c r => if Ascii.eqb c dquote then read_body r else None
  | EmptyString => None
  end.

(** A batch of three days, with two records on one of them. *)
Definition days_batch : list Transaction :=
  [raw "2024-01-02" "Dinner" (-50) "dining" "";
   raw "2024-01-03" "Train" (-9) "transport" "";
   raw "2024-01-02" "Lunch" (-20) "dining" ""].

(** Three listed files, an extraction that reads the first and fails on
    the second, and a state left by an earlier run of three files. *)
Definition sample_files : list File :=
  [mkFile "jan.pdf" "application/pdf"; mkFile "feb.png" "image/png";
   mkFile "mar.pdf" "application/pdf"].

Definition sample_outcome (i : nat) (f : File) : FileOutcome :=
  match i with
  | 0 => Parsed days_batch
  | 1 => Thrown (Some "quota exceeded")
  | _ => NoText
  end.

Definition sample_state : AppState :=
  mkState sample_files false [] None "Batch extraction complete!" 3.

(** What follows the description in a row of the export. *)
Definition after_description (t : Transaction) : string :=
  "," ++ Number_toString (amount t) ++ "," ++ category t ++ "," ++ quoted (notes t).


(** ** Facts about binary64 arithmetic

    The primitive operations are specified by [SpecFloat]; the facts below
    are about the sign of a rounded result and about comparison. *)

Module FloatFacts.
Local Open Scope Z_scope.

Lemma digits2_pos_bounds p :
  2 ^ (Zpos (digits2_pos p) - 1) <= Zpos p < 2 ^ Zpos (digits2_pos p).
Proof.
  induction p as [p IH|p IH|]; simpl digits2_pos.
  - rewrite Pos2Z.inj_succ, Z.pow_succ_r by lia.
    replace (Z.succ (Zpos (digits2_pos p)) - 1) with (Z.succ (Zpos (digits2_pos p) - 1)) by lia.
    rewrite Z.pow_succ_r by lia. lia.
  - rewrite Pos2Z.inj_succ, Z.pow_succ_r by lia.
    replace (Z.succ (Zpos (digits2_pos p)) - 1) with (Z.succ (Zpos (digits2_pos p) - 1)) by lia.
    rewrite Z.pow_succ_r by lia. lia.
  - simpl. lia.
Qed.

Lemma shr_1_m r : 0 <= shr_m r -> shr_m (shr_1 r) = shr_m r / 2.
Proof.
  rewrite <- Z.div2_div.
  destruct r as [m b s]. simpl. intros H.
  destruct m as [|[p|p|]|p]; simpl; try reflexivity. lia.
Qed.

Lemma iter_shr_1_m p : forall r,
  0 <= shr_m r -> shr_m (iter_pos shr_1 p r) = shr_m r / 2 ^ Zpos p.
Proof.
  assert (nonneg : forall r, 0 <= shr_m r -> 0 <= shr_m (shr_1 r)).
  { intros r H. rewrite shr_1_m by exact H. apply Z.div_pos; lia. }
  induction p as [p IH|p IH|]; intros r H; simpl iter_pos.
  - assert (H1 := nonneg r H).
    assert (H2 : 0 <= shr_m (iter_pos shr_1 p (shr_1 r))).
    { rewrite IH by exact H1. apply Z.div_pos; lia. }
    rewrite IH, IH, shr_1_m by assumption.
    rewrite !Z.div_div by lia. f_equal.
    replace (Zpos p~1) with (1 + Zpos p + Zpos p) by lia.
    rewrite !Z.pow_add_r by lia. change (2 ^ 1) with 2. ring.
  - assert (H2 : 0 <= shr_m (iter_pos shr_1 p r)).
    { rewrite IH by exact H. apply Z.div_pos; lia. }
    rewrite IH, IH by assumption.
    rewrite Z.div_div by lia. f_equal.
    replace (Zpos p~0) with (Zpos p + Zpos p) by lia.
    rewrite Z.pow_add_r by lia. reflexivity.
  - rewrite shr_1_m by exact H. reflexivity.
Qed.

Lemma shr_fexp_pos m e l :
  0 < m -> emin <= e ->
  0 < shr_m (fst (shr_fexp prec emax m e l))
  /\ emin <= snd (shr_fexp prec emax m e l).
Proof.
  intros Hm He. unfold shr_fexp, shr.
  assert (R : shr_m (shr_record_of_loc m l) = m) by (now destruct l as [|[]]).
  destruct (fexp prec emax (Zdigits2 m + e) - e) as [|p|p] eqn:N; simpl fst; simpl snd;
    rewrite ?R; try (split; [exact Hm|exact He]).
  rewrite iter_shr_1_m by lia. rewrite R.
  destruct m as [|q|q]; try lia. simpl Zdigits2 in N.
  pose proof (digits2_pos_bounds q) as [B _].
  unfold fexp, SpecFloat.emin, prec, emax in *.
  assert (P : Zpos p = Zpos (digits2_pos q) - 53) by lia.
  split; [|lia].
  apply Z.div_str_pos. split; [apply Z.pow_pos_nonneg; lia|].
  eapply Z.le_trans; [|exact B]. apply Z.pow_le_mono_r; lia.
Qed.

Lemma round_nearest_even_ge m l : m <= round_nearest_even m l.
Proof.
  unfold round_nearest_even. destruct l as [|[]]; try lia.
  destruct (Z.even m); lia.
Qed.

Lemma binary_round_aux_signed s m e l :
  0 < m -> emin <= e -> signed s (binary_round_aux prec emax s m e l).
Proof.
  intros Hm He. unfold binary_round_aux.
  destruct (shr_fexp_pos m e l Hm He) as [P1 E1].
  destruct (shr_fexp prec emax m e l) as [mrs' e']. simpl fst in P1. simpl snd in E1.
  pose proof (round_nearest_even_ge (shr_m mrs') (loc_of_shr_record mrs')) as G.
  set (m1 := round_nearest_even (shr_m mrs') (loc_of_shr_record mrs')) in *.
  assert (Hm1 : 0 < m1) by lia.
  destruct (shr_fexp_pos m1 e' loc_Exact Hm1 E1) as [P2 E2].
  destruct (shr_fexp prec emax m1 e' loc_Exact) as [mrs'' e'']. simpl fst in P2.
  destruct (shr_m mrs'') as [|q|q]; try lia.
  destruct (e'' <=? emax - prec); reflexivity.
Qed.

Lemma iter_xO m d : Zpos (Pos.iter xO m d) = Zpos m * 2 ^ Zpos d.
Proof.
  induction d as [|d IH] using Pos.peano_ind.
  - simpl. lia.
  - rewrite Pos.iter_succ, Pos2Z.inj_xO, IH, Pos2Z.inj_succ, Z.pow_succ_r by lia. ring.
Qed.

Lemma shl_align_value m e ez :
  ez <= e -> Zpos (fst (shl_align m e ez)) = Zpos m * 2 ^ (e - ez).
Proof.
  intros H. unfold shl_align.
  destruct (ez - e) as [|d|d] eqn:D; simpl fst.
  - replace (e - ez) with 0 by lia. rewrite Z.pow_0_r. lia.
  - lia.
  - rewrite iter_xO. do 2 f_equal. lia.
Qed.

Lemma binary_round_signed s m e :
  emin <= e -> signed s (binary_round prec emax s m e).
Proof.
  intros He. unfold binary_round.
  destruct (shl_align m e (fexp prec emax (Zpos (digits2_pos m) + e))) as [mz ez] eqn:A.
  apply binary_round_aux_signed; [lia|].
  unfold shl_align in A.
  destruct (fexp prec emax (Zpos (digits2_pos m) + e) - e) eqn:D;
    injection A as <- <-; try exact He.
  unfold fexp. lia.
Qed.

Lemma binary_normalize_signed m e sz :
  m <> 0 -> emin <= e -> signed (m <? 0) (binary_normalize prec emax m e sz).
Proof.
  intros Hm He. destruct m as [|p|p]; [easy| |]; simpl; now apply binary_round_signed.
Qed.

Lemma valid_finite s m e :
  valid_binary (S754_finite s m e) = true ->
  -1074 <= e <= 971 /\ Zpos (digits2_pos m) <= 53
  /\ (-1074 < e -> Zpos (digits2_pos m) = 53).
Proof.
  unfold valid_binary, bounded, canonical_mantissa, fexp, SpecFloat.emin, prec, emax.
  intros H. apply andb_true_iff in H as [C B].
  apply Z.eqb_eq in C. apply Z.leb_le in B. lia.
Qed.

Lemma scaled_bounds s m e :
  valid_binary (S754_finite s m e) = true ->
  0 < Zpos m * 2 ^ (e + 1074) < 2 ^ 2098.
Proof.
  intros V. destruct (valid_finite _ _ _ V) as (E & D & _).
  pose proof (digits2_pos_bounds m) as [_ U].
  assert (P : 0 < 2 ^ (e + 1074)) by (apply Z.pow_pos_nonneg; lia).
  assert (Q : 2 ^ (e + 1074) <= 2 ^ 2045) by (apply Z.pow_le_mono_r; lia).
  assert (M : Zpos m < 2 ^ 53).
  { eapply Z.lt_le_trans; [exact U|]. apply Z.pow_le_mono_r; lia. }
  split; [apply Z.mul_pos_pos; lia|].
  replace 2098 with (53 + 2045) by lia. rewrite (Z.pow_add_r 2 53 2045) by lia.
  apply Z.le_lt_trans with (Zpos m * 2 ^ 2045).
  - apply Z.mul_le_mono_nonneg_l; lia.
  - apply Z.mul_lt_mono_pos_r; [apply Z.pow_pos_nonneg; lia|exact M].
Qed.

(** Among canonical numbers the exponent decides before the mantissa. *)
Lemma scaled_exponent_lt s1 m1 e1 s2 m2 e2 :
  valid_binary (S754_finite s1 m1 e1) = true ->
  valid_binary (S754_finite s2 m2 e2) = true ->
  e1 < e2 -> Zpos m1 * 2 ^ (e1 + 1074) < Zpos m2 * 2 ^ (e2 + 1074).
Proof.
  intros V1 V2 L.
  destruct (valid_finite _ _ _ V1) as (E1 & D1 & _).
  destruct (valid_finite _ _ _ V2) as (E2 & _ & D2).
  pose proof (digits2_pos_bounds m1) as [_ U1].
  pose proof (digits2_pos_bounds m2) as [L2 _].
  rewrite D2 in L2 by lia. change (2 ^ (53 - 1)) with (2 ^ 52) in L2.
  assert (M1 : Zpos m1 < 2 ^ 53).
  { eapply Z.lt_le_trans; [exact U1|]. apply Z.pow_le_mono_r; lia. }
  set (K := 2 ^ (e1 + 1074)).
  assert (P : 0 < K) by (apply Z.pow_pos_nonneg; lia).
  replace (e2 + 1074) with ((e2 - e1 - 1) + 1 + (e1 + 1074)) by lia.
  rewrite !Z.pow_add_r by lia. fold K. change (2 ^ 1) with 2.
  assert (G : 1 <= 2 ^ (e2 - e1 - 1)).
  { change 1 with (2 ^ 0). apply Z.pow_le_mono_r; lia. }
  change (2 ^ 53) with (2 * 2 ^ 52) in M1.
  set (A := 2 ^ (e2 - e1 - 1)) in *. set (B := 2 ^ 52) in *.
  assert (S1 : Zpos m1 * K < 2 * B * K) by (apply Z.mul_lt_mono_pos_r; lia).
  assert (S2 : 2 * B * K <= Zpos m2 * (A * 2 * K)).
  { replace (Zpos m2 * (A * 2 * K)) with ((Zpos m2 * A) * (2 * K)) by ring.
    replace (2 * B * K) with (B * (2 * K)) by ring.
    apply Z.mul_le_mono_nonneg_r; [lia|].
    replace B with (B * 1) at 1 by ring.
    apply Z.mul_le_mono_nonneg; lia. }
  lia.
Qed.

Lemma scaled_compare s1 m1 e1 s2 m2 e2 :
  valid_binary (S754_finite s1 m1 e1) = true ->
  valid_binary (S754_finite s2 m2 e2) = true ->
  match e1 ?= e2 with
  | Lt => Lt
  | Gt => Gt
  | Eq => Pos.compare_cont Eq m1 m2
  end = (Zpos m1 * 2 ^ (e1 + 1074) ?= Zpos m2 * 2 ^ (e2 + 1074)).
Proof.
  intros V1 V2. symmetry.
  destruct (Z.compare_spec e1 e2) as [E|E|E].
  - subst e2. destruct (valid_finite _ _ _ V1) as (E1 & _).
    assert (P : 0 < 2 ^ (e1 + 1074)) by (apply Z.pow_pos_nonneg; lia).
    change (Pos.compare_cont Eq m1 m2) with (Zpos m1 ?= Zpos m2).
    destruct (Z.compare_spec (Zpos m1) (Zpos m2)) as [C|C|C].
    + rewrite C. apply Z.compare_refl.
    + apply Z.compare_lt_iff. apply Z.mul_lt_mono_pos_r; assumption.
    + apply Z.compare_gt_iff. apply Z.mul_lt_mono_pos_r; assumption.
  - apply Z.compare_lt_iff. eapply scaled_exponent_lt; eassumption.
  - apply Z.compare_gt_iff. eapply scaled_exponent_lt; eassumption.
Qed.

(** Comparison of numbers is comparison of ranks. *)
Lemma SFcompare_rank x y :
  valid_binary x = true -> valid_binary y = true ->
  x <> S754_nan -> y <> S754_nan ->
  SFcompare x y = Some (rank x ?= rank y).
Proof.
  intros Vx Vy Nx Ny.
  destruct x as [sx|sx| |sx mx ex]; [| |easy|];
    (destruct y as [sy|sy| |sy my ey]; [| |easy|]);
    try pose proof (scaled_bounds _ _ _ Vx) as Bx;
    try pose proof (scaled_bounds _ _ _ Vy) as By;
    assert (T : 0 < 2 ^ 2098) by (apply Z.pow_pos_nonneg; lia);
    unfold SFcompare, rank; try destruct sx; try destruct sy; unfold cond_Zopp;
    f_equal; symmetry;
    try reflexivity;
    try (apply Z.compare_lt_iff; lia);
    try (apply Z.compare_gt_iff; lia);
    try (apply Z.compare_eq_iff; lia).
  - rewrite Z.compare_opp, Z.compare_antisym, <- (scaled_compare _ _ _ _ _ _ Vx Vy).
    destruct (ex ?= ey); reflexivity.
  - rewrite <- (scaled_compare _ _ _ _ _ _ Vx Vy). reflexivity.
Qed.

Lemma signed_pos s r : signed s r -> SFltb (S754_zero false) r = negb s.
Proof. destruct r as [| | |s' m e]; simpl; try easy; intros ->; now destruct s. Qed.

Lemma cond_Zopp_mul s a k : cond_Zopp s (a * k) = cond_Zopp s a * k.
Proof. destruct s; simpl; ring. Qed.

(** The sign of a difference: [x - y] is positive exactly when [y] is
    below [x]. *)
Lemma SFsub_pos x y :
  valid_binary x = true -> valid_binary y = true ->
  x <> S754_nan -> y <> S754_nan ->
  SFltb (S754_zero false) (SF64sub x y) = (rank y <? rank x).
Proof.
  intros Vx Vy Nx Ny.
  assert (T : 0 < 2 ^ 2098) by (apply Z.pow_pos_nonneg; lia).
  destruct x as [sx|sx| |sx mx ex]; [| |easy|];
    (destruct y as [sy|sy| |sy my ey]; [| |easy|]);
    try pose proof (scaled_bounds _ _ _ Vx) as Bx;
    try pose proof (scaled_bounds _ _ _ Vy) as By.
  1-8: unfold SF64sub, SFsub, rank, cond_Zopp; try destruct sx; try destruct sy;
       simpl negb; cbv [SFltb SFcompare]; symmetry;
       try (apply Z.ltb_lt; lia); apply Z.ltb_ge; lia.
  unfold SF64sub, SFsub.
  destruct (valid_finite _ _ _ Vx) as (Ex & _).
  destruct (valid_finite _ _ _ Vy) as (Ey & _).
  set (ez := Z.min ex ey).
  rewrite !shl_align_value by lia.
  set (M := cond_Zopp sx (Zpos mx * 2 ^ (ex - ez)) - cond_Zopp sy (Zpos my * 2 ^ (ey - ez))).
  set (K := 2 ^ (ez + 1074)).
  assert (P : 0 < K) by (apply Z.pow_pos_nonneg; lia).
  assert (R : rank (S754_finite sx mx ex) - rank (S754_finite sy my ey) = M * K).
  { unfold rank, M, K.
    replace (ex + 1074) with ((ex - ez) + (ez + 1074)) by lia.
    replace (ey + 1074) with ((ey - ez) + (ez + 1074)) by lia.
    rewrite (Z.pow_add_r 2 (ex - ez)), (Z.pow_add_r 2 (ey - ez)) by lia.
    rewrite !Z.mul_assoc, !cond_Zopp_mul. ring. }
  destruct (Z.eq_dec M 0) as [Z0|NZ].
  - rewrite Z0 in R |- *.
    change (SFltb (S754_zero false) (binary_normalize prec emax 0 ez false)) with false.
    symmetry. apply Z.ltb_ge. lia.
  - rewrite (signed_pos _ _ (binary_normalize_signed M ez false NZ ltac:(unfold SpecFloat.emin, prec, emax; lia))).
    destruct (Z.ltb_spec M 0) as [L|L]; cbn [negb]; symmetry.
    + apply Z.ltb_ge. assert (M * K < 0) by (apply Z.mul_neg_pos; lia). lia.
    + apply Z.ltb_lt. assert (0 < M * K) by (apply Z.mul_pos_pos; lia). lia.
Qed.

(** *** The primitive operations *)

Lemma not_nan a : is_nan a = false -> Prim2SF a <> S754_nan.
Proof.
  unfold is_nan. rewrite eqb_spec. intros H E. rewrite E in H. discriminate H.
Qed.

Lemma ltb_rank a b :
  is_nan a = false -> is_nan b = false ->
  (a <? b)%float = (frank a <? frank b).
Proof.
  intros Na Nb. rewrite ltb_spec. unfold SFltb, frank, Z.ltb.
  rewrite SFcompare_rank by (apply Prim2SF_valid || now apply not_nan).
  reflexivity.
Qed.

Lemma leb_rank a b :
  is_nan a = false -> is_nan b = false ->
  (a <=? b)%float = (frank a <=? frank b).
Proof.
  intros Na Nb. rewrite leb_spec. unfold SFleb, frank, Z.leb.
  rewrite SFcompare_rank by (apply Prim2SF_valid || now apply not_nan).
  now destruct (rank (Prim2SF a) ?= rank (Prim2SF b)).
Qed.

Lemma sub_pos_rank a b :
  is_nan a = false -> is_nan b = false ->
  (0 <? a - b)%float = (frank b <? frank a).
Proof.
  intros Na Nb. rewrite ltb_spec, sub_spec.
  change (Prim2SF 0) with (S754_zero false).
  apply SFsub_pos; (apply Prim2SF_valid || now apply not_nan).
Qed.

(** A number above zero is not below zero. *)
Lemma pos_not_neg a : (0 <? a)%float = true -> (a <? 0)%float = false.
Proof.
  rewrite !ltb_spec. change (Prim2SF 0) with (S754_zero false).
  destruct (Prim2SF a) as [s|s| |s m e]; try destruct s; now cbv.
Qed.

Lemma abs_of_negative a : (a <? 0)%float = true -> positive_float (abs a).
Proof.
  unfold positive_float. rewrite ltb_spec, abs_spec.
  change (Prim2SF 0) with (S754_zero false).
  destruct (Prim2SF a) as [s|s| |s m e]; try destruct s; now cbv.
Qed.

Lemma or_zero_positive v : positive_float v -> or_zero v = v.
Proof.
  unfold positive_float, or_zero, is_nan, is_zero. rewrite !eqb_spec.
  change (Prim2SF zero) with (S754_zero false).
  destruct (Prim2SF v) as [s|s| |s m e] eqn:E; simpl; try easy; intros ->.
  - reflexivity.
  - cbv [SFeqb SFcompare]. rewrite Z.compare_refl, Pos.compare_cont_refl. reflexivity.
Qed.

Lemma zero_add_positive x : positive_float x -> (0 + x)%float = x.
Proof.
  unfold positive_float. intros P. apply Prim2SF_inj. rewrite add_spec.
  change (Prim2SF 0) with (S754_zero false).
  destruct (Prim2SF x) as [s|s| |s m e]; try easy.
Qed.

Lemma add_positive v x : positive_float v -> positive_float x -> positive_float (v + x).
Proof.
  unfold positive_float. rewrite add_spec.
  pose proof (Prim2SF_valid v) as Vv. pose proof (Prim2SF_valid x) as Vx.
  destruct (Prim2SF v) as [sv|sv| |sv mv ev]; try easy;
    (destruct (Prim2SF x) as [sx|sx| |sx mx ex]; try easy);
    simpl; intros -> ->; try reflexivity.
  destruct (valid_finite _ _ _ Vv) as (Ev & _).
  destruct (valid_finite _ _ _ Vx) as (Ex & _).
  unfold SF64add, SFadd, cond_Zopp.
  match goal with |- signed false (binary_normalize _ _ ?M ?e _) =>
    assert (P : 0 < M) by lia;
    replace false with (M <? 0) at 1 by (apply Z.ltb_ge; lia);
    apply binary_normalize_signed;
      [lia|unfold SpecFloat.emin, prec, emax; lia]
  end.
Qed.

End FloatFacts.

(** ** Facts about printing and reading numbers *)






Lemma digits_of_nonempty z : digits_of z <> "".
Proof.
  unfold digits_of, NilZero.string_of_uint.
  destruct (N.to_uint (Z.to_N z)); discriminate.
Qed.















(** ** Facts about maps *)

Section MapFacts.
Context {V : Type}.
Implicit Types (m : Map V) (k : string) (v : V).

Lemma Map_get_set_same m k v : Map_get k (Map_set k v m) = Some v.
Proof.
  induction m as [|[k' v'] r IH]; simpl.
  - now rewrite String.eqb_refl.
  - destruct (String.eqb k k') eqn:E; simpl; rewrite ?String.eqb_refl, ?E; auto.
Qed.

Lemma Map_get_set_other m k k' v :
  k <> k' -> Map_get k (Map_set k' v m) = Map_get k m.
Proof.
  intros N. apply String.eqb_neq in N.
  induction m as [|[k2 v2] r IH]; simpl.
  - now rewrite N.
  - destruct (String.eqb k' k2) eqn:E; simpl.
    + apply String.eqb_eq in E. subst k2. now rewrite N.
    + now rewrite IH.
Qed.

Lemma Map_has_get m k : Map_has k m = false -> Map_get k m = None.
Proof. unfold Map_has. now destruct (Map_get k m). Qed.

Lemma Map_set_keys_present m k v :
  In k (map fst m) -> map fst (Map_set k v m) = map fst m.
Proof.
  induction m as [|[k' v'] r IH]; simpl; [easy|].
  intros H. destruct (String.eqb k k') eqn:E; simpl.
  - apply String.eqb_eq in E. now subst.
  - f_equal. apply IH. destruct H as [H|H]; [|exact H].
    subst k'. now rewrite String.eqb_refl in E.
Qed.

Lemma Map_set_keys_absent m k v :
  ~ In k (map fst m) -> map fst (Map_set k v m) = (map fst m ++ [k])%list.
Proof.
  induction m as [|[k' v'] r IH]; simpl; [easy|].
  intros H. destruct (String.eqb k k') eqn:E; simpl.
  - apply String.eqb_eq in E. subst. tauto.
  - f_equal. apply IH. tauto.
Qed.


Lemma Map_In_get m k v :
  NoDup (map fst m) -> In (k, v) m -> Map_get k m = Some v.
Proof.
  induction m as [|[k' v'] r IH]; simpl; [easy|].
  intros ND [H|H].
  - injection H as -> ->. now rewrite String.eqb_refl.
  - inversion ND as [|? ? NI ND']; subst.
    destruct (String.eqb k k') eqn:E.
    + apply String.eqb_eq in E. subst k'. exfalso. apply NI.
      change k with (fst (k, v)). now apply in_map.
    + now apply IH.
Qed.

Lemma Map_get_None m k : Map_get k m = None <-> ~ In k (map fst m).
Proof.
  induction m as [|[k' v'] r IH]; simpl; [tauto|].
  destruct (String.eqb k k') eqn:E.
  - apply String.eqb_eq in E. subst. split; [easy|]. intros H. exfalso. tauto.
  - apply String.eqb_neq in E. rewrite IH. split; intros H.
    + intros [H1|H1]; [now subst|tauto].
    + tauto.
Qed.
End MapFacts.

(** ** Facts about [performAdvancedAnalytics] *)

Lemma perform_map data :
  performAdvancedAnalytics data = map (analyzed data) data.
Proof. now destruct data. Qed.

Lemma occurrences_cons f k t data :
  occurrences f k (t :: data)
  = ((if String.eqb (f t) k then 1 else 0) + occurrences f k data)%nat.
Proof. unfold occurrences. simpl. now destruct (String.eqb (f t) k). Qed.

(** [seen] counts the records key by key. *)
Lemma seen_count data : forall (m : Map nat) k,
  count_of (Map_get k (fold_left
    (fun seen t => Map_set (key t) (count_of (Map_get (key t) seen) + 1) seen) data m))
  = (count_of (Map_get k m) + occurrences key k data)%nat.
Proof.
  induction data as [|t r IH]; intros m k; simpl.
  - unfold occurrences. simpl. lia.
  - rewrite IH, occurrences_cons.
    destruct (String.eqb (key t) k) eqn:E.
    + apply String.eqb_eq in E. subst k. rewrite Map_get_set_same. simpl. lia.
    + apply String.eqb_neq in E. rewrite Map_get_set_other by congruence. lia.
Qed.

Lemma seen_of_count data k :
  count_of (Map_get k (seen_of data)) = occurrences key k data.
Proof. unfold seen_of. now rewrite seen_count. Qed.

Lemma group_step_size g t k :
  group_size (group_step g t) k
  = ((if String.eqb (normalizedDesc t) k then 1 else 0) + group_size g k)%nat.
Proof.
  unfold group_step, group_size.
  destruct (String.eqb (normalizedDesc t) k) eqn:E.
  - apply String.eqb_eq in E. subst k.
    destruct (Map_has (normalizedDesc t) g) eqn:H.
    + unfold Map_has in H. destruct (Map_get (normalizedDesc t) g) eqn:G; [|easy].
      rewrite Map_get_set_same, length_app. simpl. lia.
    + rewrite (Map_has_get _ _ H), Map_get_set_same, Map_get_set_same. reflexivity.
  - apply String.eqb_neq in E.
    destruct (Map_has (normalizedDesc t) g) eqn:H.
    + unfold Map_has in H. destruct (Map_get (normalizedDesc t) g) eqn:G; [|easy].
      now rewrite Map_get_set_other by congruence.
    + rewrite Map_get_set_same, !Map_get_set_other by congruence. reflexivity.
Qed.

(** A group holds one amount per record with its normalized description. *)
Lemma groups_size data : forall g k,
  group_size (fold_left group_step data g) k
  = (group_size g k + occurrences normalizedDesc k data)%nat.
Proof.
  induction data as [|t r IH]; intros g k; simpl.
  - unfold occurrences. simpl. lia.
  - rewrite IH, group_step_size, occurrences_cons. lia.
Qed.

Lemma descGroups_size data k :
  group_size (descGroups_of data) k = occurrences normalizedDesc k data.
Proof. unfold descGroups_of. now rewrite groups_size. Qed.

Lemma duplicateFlag_analyzed data t :
  duplicateFlag (analyzed data t) = Some (1 <? occurrences key (key t) data)%nat.
Proof. simpl. now rewrite seen_of_count. Qed.

Lemma anomalyScore_analyzed data t :
  anomalyScore (analyzed data t) = Some (parseFloat (toFixed (score_of data t) 2)).
Proof. reflexivity. Qed.

Lemma isRecurring_analyzed data t :
  isRecurring (analyzed data t)
  = Some (2 <=? occurrences normalizedDesc (normalizedDesc t) data)%nat.
Proof.
  simpl. rewrite <- descGroups_size. unfold group_size.
  now destruct (Map_get (normalizedDesc t) (descGroups_of data)).
Qed.

(** Two records at different places that [f] sends to the same key make
    that key occur twice. *)
Lemma occurrences_two f data : forall i j a b,
  i <> j -> nth_error data i = Some a -> nth_error data j = Some b ->
  f a = f b -> 2 <= occurrences f (f a) data.
Proof.
  assert (one : forall l j b k, nth_error l j = Some b -> f b = k ->
                                1 <= occurrences f k l).
  { induction l as [|t r IH]; intros [|j] b k Hj Hk; simpl in Hj; try easy;
      rewrite occurrences_cons.
    - injection Hj as ->. rewrite Hk, String.eqb_refl. lia.
    - specialize (IH _ _ _ Hj Hk). lia. }
  induction data as [|t r IH]; intros [|i] [|j] a b N Hi Hj E;
    simpl in Hi, Hj; try easy; rewrite occurrences_cons.
  - injection Hi as ->. rewrite String.eqb_refl.
    specialize (one _ _ _ (f a) Hj (eq_sym E)). lia.
  - injection Hj as ->. rewrite <- E, String.eqb_refl.
    specialize (one _ _ _ (f a) Hi eq_refl). lia.
  - assert (2 <= occurrences f (f a) r) by (eapply (IH i j); eauto). lia.
Qed.

Lemma nth_error_perform data i t :
  nth_error data i = Some t ->
  nth_error (performAdvancedAnalytics data) i = Some (analyzed data t).
Proof. intros H. rewrite perform_map. now apply map_nth_error. Qed.

Lemma Transaction_ext (a b : Transaction) :
  date a = date b -> description a = description b -> amount a = amount b ->
  category a = category b -> notes a = notes b ->
  duplicateFlag a = duplicateFlag b -> anomalyScore a = anomalyScore b ->
  isRecurring a = isRecurring b -> a = b.
Proof. destruct a, b; simpl; intros; now subst. Qed.

Lemma occurrences_map f g k data :
  (forall t, f (g t) = f t) ->
  occurrences f k (map g data) = occurrences f k data.
Proof.
  intros E. induction data as [|t r IH]; [easy|].
  simpl map. now rewrite !occurrences_cons, E, IH.
Qed.

Lemma amounts_of_analyzed d data :
  amounts_of (map (analyzed d) data) = amounts_of data.
Proof. unfold amounts_of. rewrite map_map. reflexivity. Qed.

Lemma score_of_amounts d d' t t' :
  amounts_of d = amounts_of d' -> amount t = amount t' ->
  score_of d t = score_of d' t'.
Proof.
  intros E A. unfold score_of, stdDev_of, variance_of, mean_of.
  now rewrite E, A.
Qed.

(** The analytics fields depend on the raw fields only. *)
Lemma analyzed_analyzed data t :
  analyzed (map (analyzed data) data) (analyzed data t) = analyzed data t.
Proof.
  apply Transaction_ext;
    [reflexivity|reflexivity|reflexivity|reflexivity|reflexivity| | |].
  - rewrite !duplicateFlag_analyzed.
    change (key (analyzed data t)) with (key t).
    now rewrite occurrences_map.
  - rewrite !anomalyScore_analyzed. do 3 f_equal.
    apply score_of_amounts; [apply amounts_of_analyzed|reflexivity].
  - rewrite !isRecurring_analyzed.
    change (normalizedDesc (analyzed data t)) with (normalizedDesc t).
    now rewrite occurrences_map.
Qed.

(** Numbers that are equal as numbers print alike. *)
Lemma Number_toString_eqb (a b : float) :
  (a =? b)%float = true -> Number_toString a = Number_toString b.
Proof.
  rewrite eqb_spec. unfold Number_toString, SFeqb, SFcompare.
  destruct (Prim2SF a) as [sa|sa| |sa ma ea], (Prim2SF b) as [sb|sb| |sb mb eb];
    try destruct sa; try destruct sb; try discriminate; try reflexivity;
    destruct (Z.compare_spec ea eb) as [E|E|E]; try discriminate; subst;
    change (Pos.compare_cont Eq ma mb) with (Pos.compare ma mb);
    destruct (Pos.compare_spec ma mb) as [E|E|E];
    simpl; try discriminate; now subst.
Qed.

Lemma same_triple_key a b : same_triple a b -> key a = key b.
Proof.
  intros (D & S & [A|A]); unfold key; rewrite D, S.
  - now rewrite A.
  - now rewrite (Number_toString_eqb _ _ A).
Qed.

Lemma same_triple_normalizedDesc a b : same_triple a b -> normalizedDesc a = normalizedDesc b.
Proof. intros (_ & S & _). unfold normalizedDesc. now rewrite S. Qed.

(** *** The normalization *)

Lemma trimStart_split s : exists l, all_space l = true /\ s = l ++ trimStart s.
Proof.
  induction s as [|c r (l & Al & E)]; [now exists EmptyString|].
  cbn [trimStart]. destruct (is_space c) eqn:C.
  - exists (String c l). split; [simpl; now rewrite C|]. simpl. now rewrite <- E.
  - now exists EmptyString.
Qed.

Lemma trimEnd_split s : exists r, all_space r = true /\ s = trimEnd s ++ r.
Proof.
  induction s as [|c q (r & Ar & E)]; [now exists EmptyString|].
  cbn [trimEnd]. destruct (all_space (String c q)) eqn:Q.
  - now exists (String c q).
  - exists r. split; [exact Ar|]. simpl. now rewrite <- E.
Qed.

Lemma head_space_trimStart s : head_space (trimStart s) = false.
Proof.
  induction s as [|c r IH]; [reflexivity|].
  cbn [trimStart]. destruct (is_space c) eqn:C; [exact IH|exact C].
Qed.

Lemma head_space_trimEnd s : head_space s = false -> head_space (trimEnd s) = false.
Proof.
  destruct s as [|c r]; [reflexivity|]. intros H. cbn [trimEnd].
  destruct (all_space (String c r)); [reflexivity|exact H].
Qed.

Lemma trimEnd_empty s : trimEnd s = EmptyString -> all_space s = true.
Proof.
  destruct s as [|c r]; [reflexivity|]. cbn [trimEnd].
  destruct (all_space (String c r)); [reflexivity|discriminate].
Qed.

Lemma last_space_trimEnd s : last_space (trimEnd s) = false.
Proof.
  induction s as [|c r IH]; [reflexivity|].
  cbn [trimEnd]. destruct (all_space (String c r)) eqn:Q; [reflexivity|].
  destruct (trimEnd r) as [|d q] eqn:T.
  - apply trimEnd_empty in T. simpl in Q. rewrite T, andb_true_r in Q. exact Q.
  - exact IH.
Qed.

(** The source's [trim] yields the trimmed form. *)
Lemma trim_trimmed s : trimmed_form s (trim s).
Proof.
  unfold trimmed_form, trim. split; [|split].
  - apply head_space_trimEnd, head_space_trimStart.
  - apply last_space_trimEnd.
  - destruct (trimStart_split s) as (l & Al & El).
    destruct (trimEnd_split (trimStart s)) as (r & Ar & Er).
    exists l, r. split; [exact Al|]. split; [exact Ar|].
    now rewrite <- Er.
Qed.

Lemma trimStart_all_space l x : all_space l = true -> trimStart (l ++ x) = trimStart x.
Proof.
  induction l as [|c r IH]; [reflexivity|]. simpl. intros H.
  apply andb_true_iff in H as [C R]. rewrite C. now apply IH.
Qed.

Lemma trimStart_space_only r : all_space r = true -> trimStart r = EmptyString.
Proof.
  induction r as [|c q IH]; [reflexivity|]. simpl. intros H.
  apply andb_true_iff in H as [C R]. rewrite C. now apply IH.
Qed.

Lemma trimEnd_space_only r : all_space r = true -> trimEnd r = EmptyString.
Proof. destruct r as [|c q]; [reflexivity|]. intros H. cbn [trimEnd]. now rewrite H. Qed.

Lemma all_space_app_last n r :
  n <> EmptyString -> last_space n = false -> all_space (n ++ r) = false.
Proof.
  induction n as [|c q IH]; [easy|]. intros _ L.
  destruct q as [|d q'].
  - simpl in L |- *. now rewrite L.
  - change (last_space (String d q') = false) in L.
    change (is_space c && all_space (String d q' ++ r) = false).
    rewrite IH by easy. apply andb_false_r.
Qed.

Lemma trimEnd_app n r :
  last_space n = false -> all_space r = true -> trimEnd (n ++ r) = n.
Proof.
  induction n as [|c q IH]; intros L R; [now apply trimEnd_space_only|].
  change (trimEnd (String c (q ++ r)) = String c q). cbn [trimEnd].
  change (all_space (String c (q ++ r))) with (all_space (String c q ++ r)).
  rewrite all_space_app_last by easy. f_equal. apply IH; [|exact R].
  destruct q as [|d q']; [reflexivity|exact L].
Qed.

(** The trimmed form of a string is unique. *)
Lemma trimmed_form_trim w n : trimmed_form w n -> n = trim w.
Proof.
  intros (H & L & l & r & Al & Ar & ->). unfold trim.
  rewrite trimStart_all_space by exact Al.
  destruct n as [|c q].
  - simpl. now rewrite trimStart_space_only.
  - change (String c q ++ r) with (String c (q ++ r)). cbn [trimStart].
    simpl in H. rewrite H.
    change (String c (q ++ r)) with (String c q ++ r).
    symmetry. now apply trimEnd_app.
Qed.

Lemma lowered_without_digits_source s :
  lowered_without_digits s = strip_digits (toLowerCase s).
Proof.
  unfold lowered_without_digits. induction s as [|c r IH]; [reflexivity|].
  simpl. destruct (is_digit (lower_char c)); simpl; now rewrite IH.
Qed.

(** The source's [normalize] is the normalization of the specification,
    and nothing else is. *)
Lemma normalize_spec s n : normalization_of s n <-> n = normalize s.
Proof.
  unfold normalization_of, normalize. rewrite lowered_without_digits_source. split.
  - apply trimmed_form_trim.
  - intros ->. apply trim_trimmed.
Qed.

(** ** The claims about [performAdvancedAnalytics] *)

(** C9: [performAdvancedAnalytics] keeps the length and the order of the
    batch; the record at each place keeps its date, description, amount,
    category and notes and carries the three analytics fields; the empty
    batch is sent to the empty batch. *)
Theorem analytics_preserves_records (data : list Transaction) :
  List.length (performAdvancedAnalytics data) = List.length data
  /\ (forall i,
        match nth_error data i, nth_error (performAdvancedAnalytics data) i with
        | Some t, Some t' =>
            date t' = date t /\ description t' = description t
            /\ amount t' = amount t /\ category t' = category t
            /\ notes t' = notes t
            /\ duplicateFlag t' <> None /\ anomalyScore t' <> None
            /\ isRecurring t' <> None
        | None, None => True
        | _, _ => False
        end)
  /\ performAdvancedAnalytics [] = [].
Proof.
  split; [|split].
  - rewrite perform_map. apply length_map.
  - intros i. rewrite perform_map, nth_error_map.
    destruct (nth_error data i); simpl; [|exact I].
    repeat split; discriminate.
  - reflexivity.
Qed.

(** C5: applying [performAdvancedAnalytics] to its own output gives that
    output back, so every record keeps its duplicateFlag, anomalyScore and
    isRecurring. *)
Theorem analytics_idempotent (data : list Transaction) :
  performAdvancedAnalytics (performAdvancedAnalytics data)
  = performAdvancedAnalytics data
  /\ forall i,
       option_map (fun t => (duplicateFlag t, anomalyScore t, isRecurring t))
                  (nth_error (performAdvancedAnalytics (performAdvancedAnalytics data)) i)
       = option_map (fun t => (duplicateFlag t, anomalyScore t, isRecurring t))
                    (nth_error (performAdvancedAnalytics data) i).
Proof.
  assert (E : performAdvancedAnalytics (performAdvancedAnalytics data)
              = performAdvancedAnalytics data).
  { rewrite !perform_map, map_map. apply map_ext. apply analyzed_analyzed. }
  split; [exact E|]. intros i. now rewrite E.
Qed.

(** C4: a record is flagged isRecurring exactly when at least two records
    of the batch have its normalized description; the normalized
    description is the description with every character lower-cased and
    the decimal digits left out, without the white space at its two ends,
    and it is the only string of that form; the two Netflix descriptions
    normalize to the same key, and two records carrying them are both
    flagged. *)
Theorem recurring_iff_group_of_two (data : list Transaction) (i : nat) (t : Transaction) :
  nth_error data i = Some t ->
  (exists t', nth_error (performAdvancedAnalytics data) i = Some t'
     /\ (isRecurring t' = Some true
         <-> 2 <= occurrences normalizedDesc (normalizedDesc t) data)
     /\ (isRecurring t' = Some false
         <-> occurrences normalizedDesc (normalizedDesc t) data < 2))
  /\ normalization_of (description t) (normalizedDesc t)
  /\ (forall n, normalization_of (description t) n -> n = normalizedDesc t)
  /\ normalize "Netflix Subscription 123" = "netflix subscription"
  /\ normalize "netflix subscription 456" = "netflix subscription"
  /\ (forall j u, nth_error data j = Some u ->
        description t = "Netflix Subscription 123" ->
        description u = "netflix subscription 456" ->
        exists t' u',
          nth_error (performAdvancedAnalytics data) i = Some t'
          /\ nth_error (performAdvancedAnalytics data) j = Some u'
          /\ isRecurring t' = Some true /\ isRecurring u' = Some true).
Proof.
  intros Hi.
  split; [|split; [now apply normalize_spec|split; [intros n; apply normalize_spec|
    split; [now vm_compute|split; [now vm_compute|]]]]].
  - exists (analyzed data t). split; [exact (nth_error_perform _ _ _ Hi)|].
    rewrite isRecurring_analyzed.
    destruct (Nat.leb_spec 2 (occurrences normalizedDesc (normalizedDesc t) data));
      split; split; intros H'; try reflexivity; try discriminate; lia.
  - intros j u Hj Dt Du.
    assert (N : normalizedDesc t = normalizedDesc u).
    { unfold normalizedDesc. rewrite Dt, Du. vm_compute. reflexivity. }
    assert (ij : i <> j).
    { intros ->. rewrite Hi in Hj. injection Hj as ->. rewrite Dt in Du. discriminate. }
    pose proof (occurrences_two normalizedDesc data i j t u ij Hi Hj N) as O.
    exists (analyzed data t), (analyzed data u).
    split; [exact (nth_error_perform _ _ _ Hi)|].
    split; [exact (nth_error_perform _ _ _ Hj)|].
    split; rewrite isRecurring_analyzed; f_equal; apply Nat.leb_le;
      [|rewrite <- N]; exact O.
Qed.

(** C10: two records at different places with the same date, description
    and amount are both flagged as duplicates and as recurring. *)
Theorem exact_duplicates_also_recurring
        (data : list Transaction) (i j : nat) (a b : Transaction) :
  i <> j -> nth_error data i = Some a -> nth_error data j = Some b ->
  same_triple a b ->
  exists a' b',
    nth_error (performAdvancedAnalytics data) i = Some a'
    /\ nth_error (performAdvancedAnalytics data) j = Some b'
    /\ duplicateFlag a' = Some true /\ isRecurring a' = Some true
    /\ duplicateFlag b' = Some true /\ isRecurring b' = Some true.
Proof.
  intros ij Hi Hj T.
  pose proof (same_triple_key a b T) as K.
  pose proof (same_triple_normalizedDesc a b T) as N.
  pose proof (occurrences_two key data i j a b ij Hi Hj K) as OK.
  pose proof (occurrences_two normalizedDesc data i j a b ij Hi Hj N) as ON.
  exists (analyzed data a), (analyzed data b).
  split; [exact (nth_error_perform _ _ _ Hi)|].
  split; [exact (nth_error_perform _ _ _ Hj)|].
  rewrite !duplicateFlag_analyzed, !isRecurring_analyzed, <- K, <- N.
  apply Nat.ltb_lt in OK. apply Nat.leb_le in ON.
  rewrite OK, ON. repeat split.
Qed.

(** *** Duplicate keys *)

(** C1 (evaluation): the records of [collision_batch] differ in description
    and in amount, yet their keys are the same string and both are flagged
    as duplicates. *)
Lemma duplicate_key_collision :
  map key collision_batch = ["2024-01-01-Store--20"; "2024-01-01-Store--20"]
  /\ map duplicateFlag (performAdvancedAnalytics collision_batch)
     = [Some true; Some true]
  /\ (forall a b, nth_error collision_batch 0 = Some a ->
                  nth_error collision_batch 1 = Some b ->
                  ~ same_triple a b /\ ~ same_triple b a).
Proof.
  split; [now vm_compute|split; [now vm_compute|]].
  intros a b [= <-] [= <-].
  split; intros (_ & D & _); discriminate D.
Qed.

(** *** Anomaly scores *)




(** C3 (evaluation): the three absolute amounts of [equal_batch] are the
    same number, but their binary64 mean is another number, the standard
    deviation comes out positive and every score is 1. *)
Lemma equal_amounts_score_one :
  map (fun t => abs (amount t)) equal_batch = [0.99; 0.99; 0.99]%float
  /\ (mean_of equal_batch <? 0.99)%float = true
  /\ (0 <? stdDev_of equal_batch)%float = true
  /\ map anomalyScore (performAdvancedAnalytics equal_batch)
     = [Some 1%float; Some 1%float; Some 1%float].
Proof. repeat split; now vm_compute. Qed.

(** With two amounts of 1e308 the sum of the batch overflows and both
    scores are NaN. *)
Lemma equal_amounts_score_nan :
  map (fun t => abs (amount t)) overflow_batch = [1e308; 1e308]%float
  /\ map (option_map is_nan) (map anomalyScore (performAdvancedAnalytics overflow_batch))
     = [Some true; Some true].
Proof. split; now vm_compute. Qed.

(** ** Facts about sorting *)

Section SortFacts.
Context {A : Type} (after : A -> A -> bool) (k : A -> Z).

Lemma insert_perm x l : Permutation (insert after x l) (x :: l).
Proof.
  induction l as [|y r IH]; simpl; [reflexivity|].
  destruct (after x y); [|reflexivity].
  rewrite IH. apply perm_swap.
Qed.

Lemma sort_perm l : Permutation (sort after l) l.
Proof.
  induction l as [|x r IH]; simpl; [reflexivity|].
  rewrite insert_perm. now constructor.
Qed.

Lemma In_sort l x : In x (sort after l) <-> In x l.
Proof.
  split; apply Permutation_in; [|symmetry]; apply sort_perm.
Qed.



Lemma hd_insert x l :
  hd_error (insert after x l)
  = match l with
    | [] => Some x
    | h :: _ => if after x h then Some h else Some x
    end.
Proof. destruct l as [|h r]; simpl; [reflexivity|now destruct (after x h)]. Qed.

(** The first element of the sorted list is the first element of [l]
    whose key is least. *)
Lemma sort_hd l :
  keyed_on after k l -> l <> [] ->
  exists i x,
    nth_error l i = Some x /\ hd_error (sort after l) = Some x
    /\ (forall y, In y l -> (k x <= k y)%Z)
    /\ (forall j y, (j < i)%nat -> nth_error l j = Some y -> (k x < k y)%Z).
Proof.
  induction l as [|x r IH]; intros K N; [now elim N|]. clear N.
  simpl sort. rewrite hd_insert.
  destruct r as [|x' r'].
  - exists 0%nat, x. simpl. split; [reflexivity|]. split; [reflexivity|]. split.
    + intros y [<-|[]]. lia.
    + intros j y Hj. lia.
  - destruct IH as (i & h & Hi & Hh & Hmin & Hfirst);
      [intros a b Ha Hb; apply K; now right|easy|].
    destruct (sort after (x' :: r')) as [|h0 s] eqn:E; [easy|].
    injection Hh as ->.
    assert (Hin : In h (x' :: r')) by (eapply nth_error_In; exact Hi).
    rewrite (K x h (or_introl eq_refl) (or_intror Hin)).
    destruct (Z.ltb_spec (k h) (k x)) as [L|L].
    + exists (S i), h. repeat split; try assumption.
      * intros y [<-|Hy]; [lia|now apply Hmin].
      * intros [|j] y Hj Hy; simpl in Hy.
        -- injection Hy as <-. exact L.
        -- apply (Hfirst j); [lia|exact Hy].
    + exists 0%nat, x. repeat split.
      * intros y [<-|Hy]; [lia|]. specialize (Hmin y Hy). lia.
      * intros j y Hj. lia.
Qed.
End SortFacts.


(** ** Facts about the daily totals *)

Import FloatFacts.

Lemma Map_set_NoDup {V : Type} (m : Map V) k v :
  NoDup (map fst m) -> NoDup (map fst (Map_set k v m)).
Proof.
  intros ND. destruct (in_dec string_dec k (map fst m)) as [I|I].
  - now rewrite Map_set_keys_present.
  - rewrite Map_set_keys_absent by exact I.
    apply NoDup_app; [exact ND|repeat constructor; easy|].
    intros x Hx [<-|[]]. now apply I.
Qed.

Lemma spike_step_positive m t : map_positive m -> map_positive (spike_step m t).
Proof.
  intros P. unfold spike_step.
  destruct (amount t <? 0)%float eqn:N; [|exact P].
  intros k v. destruct (string_dec k (date t)) as [->|D].
  - rewrite Map_get_set_same. intros [= <-].
    destruct (Map_get (date t) m) as [w|] eqn:G.
    + rewrite (or_zero_positive w (P _ _ G)).
      apply add_positive; [exact (P _ _ G)|now apply abs_of_negative].
    + rewrite zero_add_positive; now apply abs_of_negative.
  - rewrite Map_get_set_other by exact D. apply P.
Qed.

Lemma spike_step_NoDup m t : NoDup (map fst m) -> NoDup (map fst (spike_step m t)).
Proof.
  intros ND. unfold spike_step.
  destruct (amount t <? 0)%float; [now apply Map_set_NoDup|exact ND].
Qed.

Lemma spikes_NoDup ts : forall m,
  NoDup (map fst m) -> NoDup (map fst (fold_left spike_step ts m)).
Proof.
  induction ts as [|t r IH]; intros m ND; simpl; [exact ND|].
  apply IH. now apply spike_step_NoDup.
Qed.




(** ** The claims about [getAnalyticsSummary] *)

Lemma no_spending ts :
  (forall t, In t ts -> (amount t <? 0)%float = false) ->
  filter (fun t => (amount t <? 0)%float) ts = []
  /\ (forall m, fold_left spike_step ts m = m)
  /\ (forall m, fold_left spending_step ts (Some m) = Some m).
Proof.
  induction ts as [|t r IH]; intros H; [easy|].
  assert (N : (amount t <? 0)%float = false) by (apply H; now left).
  destruct IH as (F & S & C); [intros u Hu; apply H; now right|].
  split; [|split].
  - simpl. now rewrite N.
  - intros m. simpl. unfold spike_step at 2. rewrite N. apply S.
  - intros m. simpl. rewrite N. apply C.
Qed.

(** C6: the summary is absent exactly for the empty batch; on a non-empty
    batch whose amounts are all positive the total spending is 0, there is
    no daily total and no category total. *)
Theorem summary_of_income_only (other : string -> option Z) (ts : list Transaction) :
  (getAnalyticsSummary other ts = None <-> ts = [])
  /\ (ts <> [] ->
      (forall t, In t ts -> (0 <? amount t)%float = true) ->
      exists s, getAnalyticsSummary other ts = Some s
                /\ totalSpending s = 0%float
                /\ spikesData s = []
                /\ getChartData ts = Some []).
Proof.
  split.
  - destruct ts; simpl; split; intros H; try reflexivity; discriminate H.
  - intros NE P.
    destruct (no_spending ts) as (F & S & C);
      [intros t Ht; apply pos_not_neg; now apply P|].
    destruct ts as [|t r]; [now elim NE|].
    eexists. split; [reflexivity|].
    cbn [totalSpending spikesData]. unfold spikesMap_of, getChartData.
    rewrite F, S, C. repeat split.
Qed.

Lemma summary_of_income_only_witness :
  exists s, getAnalyticsSummary (fun _ => None) income_batch = Some s
            /\ totalSpending s = 0%float
            /\ spikesData s = []
            /\ getChartData income_batch = Some [].
Proof.
  apply (proj2 (summary_of_income_only (fun _ => None) income_batch)).
  - discriminate.
  - intros t [<-|[<-|[]]]; now vm_compute.
Defined.



(** C8: on a non-empty batch whose amounts are numbers, [highest] is the
    first record of the batch whose amount no other amount exceeds, and
    [lowest] the first record whose amount is not above any other. *)
Theorem extremes_are_first_maximum_and_minimum
        (other : string -> option Z) (ts : list Transaction) :
  ts <> [] ->
  (forall t, In t ts -> is_nan (amount t) = false) ->
  exists s i j hi lo,
    getAnalyticsSummary other ts = Some s
    /\ highest s = Some hi /\ nth_error ts i = Some hi
    /\ (forall t, In t ts -> (amount t <=? amount hi)%float = true)
    /\ (forall n t, (n < i)%nat -> nth_error ts n = Some t ->
                    (amount t <? amount hi)%float = true)
    /\ lowest s = Some lo /\ nth_error ts j = Some lo
    /\ (forall t, In t ts -> (amount lo <=? amount t)%float = true)
    /\ (forall n t, (n < j)%nat -> nth_error ts n = Some t ->
                    (amount lo <? amount t)%float = true).
Proof.
  intros NE N.
  assert (Kh : keyed_on (fun a b => 0 <? amount b - amount a)%float
                        (fun t => (- frank (amount t))%Z) ts).
  { intros x y Hx Hy. rewrite sub_pos_rank by now apply N.
    destruct (Z.ltb_spec (frank (amount x)) (frank (amount y)));
      symmetry; [apply Z.ltb_lt|apply Z.ltb_ge]; lia. }
  assert (Kl : keyed_on (fun a b => 0 <? amount a - amount b)%float
                        (fun t => frank (amount t)) ts).
  { intros x y Hx Hy. now rewrite sub_pos_rank by now apply N. }
  destruct (sort_hd _ _ ts Kh NE) as (i & hi & Hi & Hh & Hmax & Hfirst).
  destruct (sort_hd _ _ ts Kl NE) as (j & lo & Hj & Hl & Hmin & Hfirst').
  assert (Ihi : In hi ts) by (eapply nth_error_In; exact Hi).
  assert (Ilo : In lo ts) by (eapply nth_error_In; exact Hj).
  destruct ts as [|t0 r]; [now elim NE|].
  eexists. exists i, j, hi, lo.
  split; [reflexivity|]. cbn [highest lowest].
  split; [exact Hh|]. split; [exact Hi|]. split; [|split; [|split; [exact Hl|split; [exact Hj|split]]]].
  - intros t Ht. rewrite leb_rank by now apply N.
    apply Z.leb_le. specialize (Hmax t Ht). simpl in Hmax. lia.
  - intros n t Hn Ht. assert (It : In t (t0 :: r)) by (eapply nth_error_In; exact Ht).
    rewrite ltb_rank by now apply N.
    apply Z.ltb_lt. specialize (Hfirst n t Hn Ht). simpl in Hfirst. lia.
  - intros t Ht. rewrite leb_rank by now apply N.
    apply Z.leb_le. exact (Hmin t Ht).
  - intros n t Hn Ht. assert (It : In t (t0 :: r)) by (eapply nth_error_In; exact Ht).
    rewrite ltb_rank by now apply N.
    apply Z.ltb_lt. exact (Hfirst' n t Hn Ht).
Qed.

Lemma extremes_are_first_maximum_and_minimum_witness :
  exists s i j hi lo,
    getAnalyticsSummary (fun _ => None) tie_batch = Some s
    /\ highest s = Some hi /\ nth_error tie_batch i = Some hi
    /\ lowest s = Some lo /\ nth_error tie_batch j = Some lo.
Proof.
  destruct (extremes_are_first_maximum_and_minimum (fun _ => None) tie_batch)
    as (s & i & j & hi & lo & E & H1 & H2 & _ & _ & H3 & H4 & _).
  - discriminate.
  - intros t [<-|[<-|[<-|[<-|[]]]]]; now vm_compute.
  - exists s, i, j, hi, lo. repeat split; assumption.
Defined.

(** ** Instances of the claims about [performAdvancedAnalytics] *)

Lemma recurring_iff_group_of_two_witness :
  (exists t u,
     nth_error (performAdvancedAnalytics netflix_batch) 0 = Some t
     /\ nth_error (performAdvancedAnalytics netflix_batch) 2 = Some u
     /\ isRecurring t = Some true /\ isRecurring u = Some true)
  /\ (exists t,
        nth_error (performAdvancedAnalytics spaced_batch) 0 = Some t
        /\ isRecurring t = Some true
        /\ normalization_of "  Spotify 0042 " "spotify").
Proof.
  split.
  - destruct (recurring_iff_group_of_two netflix_batch 0
                (raw "2024-01-05" "Netflix Subscription 123" (-15.99) "entertainment" "")
                eq_refl) as (_ & _ & _ & _ & _ & J).
    exact (J 2%nat (raw "2024-02-05" "netflix subscription 456" (-17.99) "entertainment" "")
             eq_refl eq_refl eq_refl).
  - destruct (recurring_iff_group_of_two spaced_batch 0
                (raw "2024-03-01" "  Spotify 0042 " (-9.99) "entertainment" "")
                eq_refl) as ((t & N & R & _) & F & _).
    exists t. split; [exact N|]. split; [|exact F].
    apply R. apply Nat.leb_le. now vm_compute.
Defined.

Lemma exact_duplicates_also_recurring_witness :
  exists a' b',
    nth_error (performAdvancedAnalytics duplicate_batch) 0 = Some a'
    /\ nth_error (performAdvancedAnalytics duplicate_batch) 2 = Some b'
    /\ duplicateFlag a' = Some true /\ isRecurring a' = Some true
    /\ duplicateFlag b' = Some true /\ isRecurring b' = Some true.
Proof.
  apply (exact_duplicates_also_recurring duplicate_batch 0 2
           (raw "2024-03-01" "Gym 24" (-30) "health" "")
           (raw "2024-03-01" "Gym 24" (-30) "health" "entered twice")).
  - discriminate.
  - reflexivity.
  - reflexivity.
  - repeat split. now left.
Defined.

(** ** Further properties of [performAdvancedAnalytics] *)

Lemma occurrences_perm f k data data' :
  Permutation data data' -> occurrences f k data = occurrences f k data'.
Proof.
  induction 1 as [|x l l' P IH|x y l|l l' l'' P1 IH1 P2 IH2];
    rewrite ?occurrences_cons; try reflexivity; lia.
Qed.

Lemma occurrences_app f k data more :
  occurrences f k (data ++ more)%list
  = (occurrences f k data + occurrences f k more)%nat.
Proof.
  induction data as [|t r IH]; [reflexivity|].
  simpl app. rewrite !occurrences_cons, IH. lia.
Qed.

Lemma flags_analyzed data t :
  flags (analyzed data t)
  = (date t, description t, amount t, category t, notes t,
     Some (1 <? occurrences key (key t) data)%nat,
     Some (2 <=? occurrences normalizedDesc (normalizedDesc t) data)%nat).
Proof.
  unfold flags. rewrite duplicateFlag_analyzed, isRecurring_analyzed. reflexivity.
Qed.

(** X1: the duplicate and recurring flags do not depend on the order of
    the batch: analysing a reordered batch gives the same records with the
    same two flags, reordered. *)
Theorem flags_ignore_order (data data' : list Transaction) :
  Permutation data data' ->
  Permutation (map flags (performAdvancedAnalytics data))
              (map flags (performAdvancedAnalytics data')).
Proof.
  intros P. rewrite !perform_map, !map_map.
  rewrite (map_ext (fun t => flags (analyzed data t))
                   (fun t => flags (analyzed data' t))).
  - now apply Permutation_map.
  - intros t. rewrite !flags_analyzed.
    now rewrite (occurrences_perm key _ _ _ P),
                (occurrences_perm normalizedDesc _ _ _ P).
Qed.

Lemma flags_ignore_order_witness :
  Permutation (map flags (performAdvancedAnalytics duplicate_batch))
              (map flags (performAdvancedAnalytics (rev duplicate_batch))).
Proof.
  apply flags_ignore_order. apply Permutation_rev.
Defined.

(** X2: a flag once set survives the growth of the batch: a record
    flagged as duplicate or as recurring stays so when records are
    appended, as they are after every extracted file. *)
Theorem flags_survive_growth
        (data more : list Transaction) (i : nat) (t' : Transaction) :
  nth_error (performAdvancedAnalytics data) i = Some t' ->
  exists u',
    nth_error (performAdvancedAnalytics (data ++ more)) i = Some u'
    /\ (duplicateFlag t' = Some true -> duplicateFlag u' = Some true)
    /\ (isRecurring t' = Some true -> isRecurring u' = Some true).
Proof.
  rewrite perform_map, nth_error_map.
  destruct (nth_error data i) as [t|] eqn:E; [|discriminate]. intros [= <-].
  exists (analyzed (data ++ more) t). split.
  - apply nth_error_perform. rewrite nth_error_app1; [exact E|].
    apply nth_error_Some. congruence.
  - rewrite !duplicateFlag_analyzed, !isRecurring_analyzed, !occurrences_app.
    split; intros H; f_equal.
    + assert (H1 : (1 <? occurrences key (key t) data)%nat = true) by congruence.
      apply Nat.ltb_lt in H1. apply Nat.ltb_lt. lia.
    + assert (H1 : (2 <=? occurrences normalizedDesc (normalizedDesc t) data)%nat = true)
        by congruence.
      apply Nat.leb_le in H1. apply Nat.leb_le. lia.
Qed.

Lemma flags_survive_growth_witness :
  exists u',
    nth_error (performAdvancedAnalytics (duplicate_batch ++ netflix_batch)) 0 = Some u'
    /\ (Some true = Some true -> duplicateFlag u' = Some true)
    /\ (Some true = Some true -> isRecurring u' = Some true).
Proof.
  apply (flags_survive_growth duplicate_batch netflix_batch 0
           (analyzed duplicate_batch (raw "2024-03-01" "Gym 24" (-30) "health" ""))).
  reflexivity.
Defined.

(** Where a key occurs twice, a record with that key has a partner. *)
Lemma occurrences_partner f data : forall i t,
  nth_error data i = Some t -> 2 <= occurrences f (f t) data ->
  exists j u, j <> i /\ nth_error data j = Some u /\ f u = f t.
Proof.
  assert (one : forall l k, 1 <= occurrences f k l ->
                            exists j u, nth_error l j = Some u /\ f u = k).
  { induction l as [|x r IH]; intros k H.
    - unfold occurrences in H. simpl in H. lia.
    - rewrite occurrences_cons in H. destruct (String.eqb (f x) k) eqn:E.
      + exists 0%nat, x. split; [reflexivity|now apply String.eqb_eq].
      + destruct (IH k) as (j & u & Hj & Hu); [lia|]. now exists (S j), u. }
  induction data as [|x r IH]; intros [|i] t Hi H; simpl in Hi; try discriminate.
  - injection Hi as ->. rewrite occurrences_cons, String.eqb_refl in H.
    destruct (one r (f t)) as (j & u & Hj & Hu); [lia|].
    exists (S j), u. repeat split; [discriminate|exact Hj|exact Hu].
  - rewrite occurrences_cons in H. destruct (String.eqb (f x) (f t)) eqn:E.
    + exists 0%nat, x. repeat split; [discriminate|now apply String.eqb_eq].
    + destruct (IH i t Hi) as (j & u & N & Hj & Hu); [lia|].
      exists (S j), u. repeat split; [congruence|exact Hj|exact Hu].
Qed.

(** X3: a flag never stands alone: a record flagged as duplicate has a
    partner at another place with the same key, flagged too, and a record
    flagged as recurring has a partner with the same normalized
    description, flagged too. *)
Theorem flagged_records_have_partners
        (data : list Transaction) (i : nat) (t' : Transaction) :
  nth_error (performAdvancedAnalytics data) i = Some t' ->
  (duplicateFlag t' = Some true ->
   exists j u', j <> i /\ nth_error (performAdvancedAnalytics data) j = Some u'
                /\ key u' = key t' /\ duplicateFlag u' = Some true)
  /\ (isRecurring t' = Some true ->
      exists j u', j <> i /\ nth_error (performAdvancedAnalytics data) j = Some u'
                   /\ normalizedDesc u' = normalizedDesc t'
                   /\ isRecurring u' = Some true).
Proof.
  rewrite perform_map, nth_error_map.
  destruct (nth_error data i) as [t|] eqn:E; [|discriminate]. intros [= <-].
  rewrite duplicateFlag_analyzed, isRecurring_analyzed.
  split; intros H0.
  - assert (H : (1 <? occurrences key (key t) data)%nat = true) by congruence.
    apply Nat.ltb_lt in H.
    destruct (occurrences_partner key data i t E) as (j & u & N & Hj & Hu); [lia|].
    exists j, (analyzed data u). split; [exact N|].
    split; [now apply map_nth_error|]. split; [exact Hu|].
    rewrite duplicateFlag_analyzed. f_equal. apply Nat.ltb_lt.
    change (key (analyzed data u)) with (key u) in Hu. rewrite Hu. exact H.
  - assert (H : (2 <=? occurrences normalizedDesc (normalizedDesc t) data)%nat = true)
      by congruence.
    apply Nat.leb_le in H.
    destruct (occurrences_partner normalizedDesc data i t E) as (j & u & N & Hj & Hu);
      [exact H|].
    exists j, (analyzed data u). split; [exact N|].
    split; [now apply map_nth_error|]. split; [exact Hu|].
    rewrite isRecurring_analyzed. f_equal. apply Nat.leb_le.
    change (normalizedDesc (analyzed data u)) with (normalizedDesc u) in Hu.
    rewrite Hu. exact H.
Qed.

Lemma flagged_records_have_partners_witness :
  exists j u', j <> 0%nat
    /\ nth_error (performAdvancedAnalytics duplicate_batch) j = Some u'
    /\ key u' = key (analyzed duplicate_batch (raw "2024-03-01" "Gym 24" (-30) "health" ""))
    /\ duplicateFlag u' = Some true.
Proof.
  apply (flagged_records_have_partners duplicate_batch 0
           (analyzed duplicate_batch (raw "2024-03-01" "Gym 24" (-30) "health" ""))).
  - reflexivity.
  - now vm_compute.
Defined.

(** *** The normalized description *)

Lemma lower_char_fixed c : lower_char (lower_char c) = lower_char c.
Proof. destruct c as [[] [] [] [] [] [] [] []]; now vm_compute. Qed.

Lemma all_chars_impl (p q : ascii -> bool) s :
  (forall c, p c = true -> q c = true) -> all_chars p s = true -> all_chars q s = true.
Proof.
  intros I. induction s as [|c r IH]; simpl; [easy|].
  intros H. apply andb_true_iff in H as [H1 H2]. now rewrite (I c H1), IH.
Qed.

Lemma toLowerCase_lower s :
  all_chars (fun c => Ascii.eqb (lower_char c) c) (toLowerCase s) = true.
Proof.
  induction s as [|c r IH]; simpl; [reflexivity|].
  now rewrite lower_char_fixed, Ascii.eqb_refl.
Qed.

Lemma toLowerCase_id s :
  all_chars (fun c => Ascii.eqb (lower_char c) c) s = true -> toLowerCase s = s.
Proof.
  induction s as [|c r IH]; simpl; [reflexivity|].
  intros H. apply andb_true_iff in H as [H1 H2].
  apply Ascii.eqb_eq in H1. now rewrite H1, IH.
Qed.

Lemma strip_digits_none s :
  all_chars (fun c => negb (is_digit c)) (strip_digits s) = true.
Proof.
  induction s as [|c r IH]; simpl; [reflexivity|].
  destruct (is_digit c) eqn:D; simpl; [exact IH|]. now rewrite D.
Qed.

Lemma strip_digits_id s :
  all_chars (fun c => negb (is_digit c)) s = true -> strip_digits s = s.
Proof.
  induction s as [|c r IH]; simpl; [reflexivity|].
  intros H. apply andb_true_iff in H as [H1 H2].
  apply negb_true_iff in H1. now rewrite H1, IH.
Qed.

Lemma all_chars_strip_digits p s :
  all_chars p s = true -> all_chars p (strip_digits s) = true.
Proof.
  induction s as [|c r IH]; simpl; [easy|].
  intros H. apply andb_true_iff in H as [H1 H2].
  destruct (is_digit c); simpl; [now apply IH|]. now rewrite H1, IH.
Qed.

Lemma all_chars_trimStart p s :
  all_chars p s = true -> all_chars p (trimStart s) = true.
Proof.
  induction s as [|c r IH]; simpl; [easy|].
  intros H. destruct (is_space c); [|exact H].
  apply andb_true_iff in H as [_ H2]. now apply IH.
Qed.

Lemma all_chars_trimEnd p s :
  all_chars p s = true -> all_chars p (trimEnd s) = true.
Proof.
  induction s as [|c r IH]; [easy|].
  intros H. cbn [trimEnd]. destruct (all_space (String c r)); [reflexivity|].
  simpl in H |- *. apply andb_true_iff in H as [H1 H2]. now rewrite H1, IH.
Qed.

Lemma all_space_trimEnd s : all_space (trimEnd s) = all_space s.
Proof.
  induction s as [|c r IH]; [reflexivity|].
  cbn [trimEnd]. destruct (all_space (String c r)) eqn:A; [reflexivity|].
  simpl in A |- *. now rewrite IH.
Qed.

Lemma trimEnd_trimEnd s : trimEnd (trimEnd s) = trimEnd s.
Proof.
  induction s as [|c r IH]; [reflexivity|].
  cbn [trimEnd]. destruct (all_space (String c r)) eqn:A; [reflexivity|].
  cbn [trimEnd].
  replace (all_space (String c (trimEnd r))) with false; [now rewrite IH|].
  simpl in A |- *. now rewrite all_space_trimEnd.
Qed.

Lemma trimStart_trim s : trimStart (trim s) = trim s.
Proof.
  unfold trim. induction s as [|c r IH]; [reflexivity|].
  cbn [trimStart]. destruct (is_space c) eqn:S; [exact IH|].
  cbn [trimEnd]. replace (all_space (String c r)) with false by (simpl; now rewrite S).
  cbn [trimStart]. now rewrite S.
Qed.

(** X4: the normalized description is canonical: it holds no decimal
    digit and no character that lower-casing would change, it neither
    starts nor ends with white space, and normalizing it again changes
    nothing. *)
Theorem normalize_canonical (s : string) :
  all_chars (fun c => negb (is_digit c)) (normalize s) = true
  /\ all_chars (fun c => Ascii.eqb (lower_char c) c) (normalize s) = true
  /\ head_space (normalize s) = false
  /\ last_space (normalize s) = false
  /\ normalize (normalize s) = normalize s.
Proof.
  assert (D : all_chars (fun c => negb (is_digit c)) (normalize s) = true).
  { unfold normalize, trim.
    apply all_chars_trimEnd, all_chars_trimStart, strip_digits_none. }
  assert (L : all_chars (fun c => Ascii.eqb (lower_char c) c) (normalize s) = true).
  { unfold normalize, trim.
    apply all_chars_trimEnd, all_chars_trimStart, all_chars_strip_digits,
      toLowerCase_lower. }
  assert (S : trimStart (normalize s) = normalize s) by apply trimStart_trim.
  assert (E : trimEnd (normalize s) = normalize s) by apply trimEnd_trimEnd.
  destruct (trim_trimmed (strip_digits (toLowerCase s))) as (Hs & Ls & _).
  repeat split; try assumption.
  unfold normalize at 1. rewrite (toLowerCase_id _ L), (strip_digits_id _ D).
  unfold trim. now rewrite S, E.
Qed.

(** ** Further facts about numbers and lists *)

Lemma is_nan_false a : Prim2SF a <> S754_nan -> is_nan a = false.
Proof.
  intros N. unfold is_nan. rewrite eqb_spec. unfold SFeqb.
  rewrite SFcompare_rank by (apply Prim2SF_valid || exact N).
  now rewrite Z.compare_refl.
Qed.

Lemma ltb_numbers a b :
  (a <? b)%float = true -> is_nan a = false /\ is_nan b = false.
Proof.
  rewrite ltb_spec. intros H.
  split; apply is_nan_false; intros E; rewrite E in H;
    [|destruct (Prim2SF a)]; discriminate H.
Qed.

Lemma ltb_trans a b c :
  (a <? b)%float = true -> (b <? c)%float = true -> (a <? c)%float = true.
Proof.
  intros H1 H2.
  destruct (ltb_numbers _ _ H1) as [Na Nb]. destruct (ltb_numbers _ _ H2) as [_ Nc].
  rewrite ltb_rank in * by assumption.
  apply Z.ltb_lt in H1, H2. apply Z.ltb_lt. lia.
Qed.

Lemma positive_float_facts v :
  positive_float v ->
  is_nan v = false /\ (0 <? v)%float = true /\ (v <? 0)%float = false.
Proof.
  unfold positive_float. intros P.
  assert (N : Prim2SF v <> S754_nan) by (intros E; rewrite E in P; exact P).
  split; [now apply is_nan_false|].
  assert (L : (0 <? v)%float = true).
  { rewrite ltb_spec. change (Prim2SF 0) with (S754_zero false).
    now rewrite (signed_pos _ _ P). }
  split; [exact L|now apply pos_not_neg].
Qed.

Lemma positive_of_gt_zero a : (0 <? a)%float = true -> positive_float a.
Proof.
  unfold positive_float. rewrite ltb_spec.
  change (Prim2SF 0) with (S754_zero false).
  destruct (Prim2SF a) as [s|s| |s m e]; try destruct s; now cbv.
Qed.

(** A sum of positive numbers, taken from 0 or from a positive number, is
    0 or positive. *)
Lemma sum_zero_or_positive {A : Type} (g : A -> float) (l : list A) : forall acc,
  (forall x, In x l -> positive_float (g x)) ->
  acc = 0%float \/ positive_float acc ->
  fold_left (fun a x => a + g x)%float l acc = 0%float
  \/ positive_float (fold_left (fun a x => a + g x)%float l acc).
Proof.
  induction l as [|x r IH]; intros acc P H; simpl; [exact H|].
  apply IH; [intros y Hy; apply P; now right|].
  right. destruct H as [->|H].
  - rewrite zero_add_positive; apply P; now left.
  - apply add_positive; [exact H|apply P; now left].
Qed.

Lemma filter_length_perm {A : Type} (p : A -> bool) (l l' : list A) :
  Permutation l l' -> List.length (filter p l) = List.length (filter p l').
Proof.
  induction 1 as [|x l l' P IH|x y l|l l' l'' P1 IH1 P2 IH2]; simpl;
    try reflexivity; try congruence.
  - destruct (p x); simpl; congruence.
  - destruct (p x), (p y); reflexivity.
Qed.

Lemma filter_length_impl {A : Type} (p q : A -> bool) (l : list A) :
  (forall x, In x l -> p x = true -> q x = true) ->
  List.length (filter p l) <= List.length (filter q l).
Proof.
  induction l as [|x r IH]; intros I; simpl; [lia|].
  assert (IH' : List.length (filter p r) <= List.length (filter q r))
    by (apply IH; intros y Hy; apply I; now right).
  destruct (p x) eqn:P.
  - rewrite (I x (or_introl eq_refl) P). simpl. lia.
  - destruct (q x); simpl; lia.
Qed.

Lemma filter_map_length {A B : Type} (p : B -> bool) (g : A -> B) (l : list A) :
  List.length (filter p (map g l)) = List.length (filter (fun x => p (g x)) l).
Proof.
  induction l as [|x r IH]; simpl; [reflexivity|].
  destruct (p (g x)); simpl; congruence.
Qed.

Lemma fold_left_filter {A S : Type} (step : S -> A -> S) (p : A -> bool) (l : list A) :
  (forall acc x, p x = false -> step acc x = acc) ->
  forall acc, fold_left step (filter p l) acc = fold_left step l acc.
Proof.
  intros I. induction l as [|x r IH]; intros acc; simpl; [reflexivity|].
  destruct (p x) eqn:P; simpl; [apply IH|]. now rewrite (I acc x P).
Qed.

Lemma filter_filter {A : Type} (p : A -> bool) (l : list A) :
  filter p (filter p l) = filter p l.
Proof.
  induction l as [|x r IH]; simpl; [reflexivity|].
  destruct (p x) eqn:P; simpl; [now rewrite P, IH|exact IH].
Qed.

Lemma In_with_index {A : Type} (l : list A) : forall k i x,
  In (i, x) (with_index k l) <-> k <= i /\ nth_error l (i - k) = Some x.
Proof.
  induction l as [|y r IH]; intros k i x; simpl.
  - split; [easy|]. intros [_ H]. now destruct (i - k).
  - rewrite IH. split.
    + intros [[= <- <-]|[L H]].
      * split; [lia|]. now rewrite Nat.sub_diag.
      * split; [lia|]. replace (i - k) with (S (i - S k)) by lia. exact H.
    + intros [L H]. destruct (i - k) as [|n] eqn:E.
      * left. injection H as ->. f_equal. lia.
      * right. split; [lia|]. replace (i - S k) with n by lia. exact H.
Qed.

Lemma with_index_sorted {A : Type} (l : list A) : forall k,
  StronglySorted (fun p q => fst p < fst q) (with_index k l).
Proof.
  induction l as [|y r IH]; intros k; simpl; constructor; [apply IH|].
  apply Forall_forall. intros [i x] H. apply In_with_index in H. simpl. lia.
Qed.

Lemma StronglySorted_map {A B : Type} (R : B -> B -> Prop) (g : A -> B) (l : list A) :
  StronglySorted (fun a b => R (g a) (g b)) l -> StronglySorted R (map g l).
Proof.
  induction 1 as [|x r S IH F]; simpl; constructor; [exact IH|].
  apply Forall_map. exact F.
Qed.

Lemma StronglySorted_filter {A : Type} (R : A -> A -> Prop) (p : A -> bool) (l : list A) :
  StronglySorted R l -> StronglySorted R (filter p l).
Proof.
  induction 1 as [|x r S IH F]; simpl; [constructor|].
  destruct (p x); [|exact IH]. constructor; [exact IH|].
  rewrite Forall_forall in F |- *. intros y Hy. apply F.
  now apply filter_In in Hy.
Qed.

Lemma with_index_filter_length {A B : Type} (p : B -> bool) (g : nat * A -> B)
      (q : A -> bool) (l : list A) :
  (forall i x, p (g (i, x)) = q x) ->
  forall k, List.length (filter p (map g (with_index k l)))
            = List.length (filter q l).
Proof.
  intros E. induction l as [|x r IH]; intros k; simpl; [reflexivity|].
  rewrite E. destruct (q x); simpl; now rewrite IH.
Qed.

(** ** Further properties of [getAnalyticsSummary] and [getChartData] *)

Lemma summary_fields (other : string -> option Z) ts s :
  getAnalyticsSummary other ts = Some s ->
  totalRecords s = List.length ts
  /\ totalSpending s
     = fold_left (fun acc t => acc + abs (amount t))%float (spending ts) 0%float
  /\ totalIncome s
     = fold_left (fun acc t => acc + amount t)%float
                 (filter (fun t => 0 <? amount t)%float ts) 0%float
  /\ duplicates s = List.length (filter (fun t => truthy (duplicateFlag t)) ts)
  /\ suspicious s = List.length (filter (fun t => 2 <? score_or_zero t)%float ts)
  /\ spikesData s
     = sort (spike_after other)
            (map (fun kv => mkSpike (fst kv) (snd kv)) (spikesMap_of ts))
  /\ anomalyData s
     = filter (fun d => 1 <? score d)%float
              (map (fun it => mkAnomaly (fst it) (score_or_zero (snd it))
                                        (description (snd it)))
                   (with_index 0 ts)).
Proof.
  destruct ts as [|t r]; [discriminate|]. intros [= <-]. repeat split.
Qed.

(** X5: the anomaly series lists exactly the records whose score is above
    1, each with its place in the batch, its score and its description,
    and lists them by increasing place. *)
Theorem anomalyData_lists_high_scores
        (other : string -> option Z) (ts : list Transaction) (s : Summary) :
  getAnalyticsSummary other ts = Some s ->
  (forall a, In a (anomalyData s)
             <-> (exists t, nth_error ts (index a) = Some t
                            /\ score a = score_or_zero t
                            /\ desc a = description t)
                 /\ (1 <? score a)%float = true)
  /\ StronglySorted (fun a b => index a < index b) (anomalyData s).
Proof.
  intros H. destruct (summary_fields _ _ _ H) as (_ & _ & _ & _ & _ & _ & ->).
  split.
  - intros a. rewrite filter_In, in_map_iff. split.
    + intros (([i t] & <- & I) & L). apply In_with_index in I as [_ I].
      rewrite Nat.sub_0_r in I. simpl in *. split; [|exact L]. now exists t.
    + intros ((t & N & S & D) & L). split; [|exact L].
      exists (index a, t). split.
      * destruct a as [i sc d]. simpl in *. now subst.
      * apply In_with_index. rewrite Nat.sub_0_r. split; [lia|exact N].
  - apply StronglySorted_filter, StronglySorted_map. simpl.
    apply with_index_sorted.
Qed.

Lemma anomalyData_lists_high_scores_witness :
  exists s, getAnalyticsSummary (fun _ => None) scored_batch = Some s
            /\ StronglySorted (fun a b => index a < index b) (anomalyData s).
Proof.
  destruct (getAnalyticsSummary (fun _ => None) scored_batch) as [s|] eqn:E;
    [|discriminate E].
  exists s. split; [reflexivity|].
  exact (proj2 (anomalyData_lists_high_scores _ _ _ E)).
Defined.

(** X6: the counts of the summary are ordered: the suspicious records
    (score above 2) are among those of the anomaly series (score above 1),
    and neither these nor the duplicates outnumber the records. *)
Theorem summary_counts_bounded
        (other : string -> option Z) (ts : list Transaction) (s : Summary) :
  getAnalyticsSummary other ts = Some s ->
  suspicious s <= List.length (anomalyData s)
  /\ List.length (anomalyData s) <= totalRecords s
  /\ duplicates s <= totalRecords s.
Proof.
  intros H.
  destruct (summary_fields _ _ _ H) as (-> & _ & _ & -> & -> & _ & ->).
  rewrite (with_index_filter_length _ _ (fun t => 1 <? score_or_zero t)%float)
    by reflexivity.
  split; [|split; apply filter_length_le].
  apply filter_length_impl. intros t _ L.
  apply ltb_trans with 2%float; [reflexivity|exact L].
Qed.

Lemma summary_counts_bounded_witness :
  exists s, getAnalyticsSummary (fun _ => None) scored_batch = Some s
            /\ suspicious s <= List.length (anomalyData s).
Proof.
  destruct (getAnalyticsSummary (fun _ => None) scored_batch) as [s|] eqn:E;
    [|discriminate E].
  exists s. split; [reflexivity|].
  exact (proj1 (summary_counts_bounded _ _ _ E)).
Defined.

(** X7: after the analysis the number of duplicates is never 1: it is the
    number of records whose key occurs at least twice, in whatever order
    the analysed records are handed to the summary. *)
Theorem duplicates_never_one
        (other : string -> option Z) (data ts : list Transaction) (s : Summary) :
  Permutation ts (performAdvancedAnalytics data) ->
  getAnalyticsSummary other ts = Some s ->
  duplicates s
  = List.length (filter (fun t => 1 <? occurrences key (key t) data)%nat data)
  /\ duplicates s <> 1.
Proof.
  intros P H.
  destruct (summary_fields _ _ _ H) as (_ & _ & _ & -> & _).
  rewrite (filter_length_perm _ _ _ P), perform_map, filter_map_length.
  rewrite (filter_ext (fun t => truthy (duplicateFlag (analyzed data t)))
                      (fun t => 1 <? occurrences key (key t) data)%nat)
    by (intros t; now rewrite duplicateFlag_analyzed).
  split; [reflexivity|].
  set (q := fun t => (1 <? occurrences key (key t) data)%nat).
  destruct (filter q data) as [|t r] eqn:F; [discriminate|].
  assert (I : In t (filter q data)) by (rewrite F; now left).
  apply filter_In in I as [_ Q]. unfold q in Q. apply Nat.ltb_lt in Q.
  assert (L : occurrences key (key t) data <= List.length (filter q data)).
  { apply filter_length_impl. intros u _ E. apply String.eqb_eq in E.
    unfold q. rewrite E. now apply Nat.ltb_lt. }
  rewrite F in L. lia.
Qed.

Lemma duplicates_never_one_witness :
  exists s, getAnalyticsSummary (fun _ => None) (performAdvancedAnalytics duplicate_batch)
            = Some s
            /\ duplicates s <> 1.
Proof.
  destruct (getAnalyticsSummary (fun _ => None) (performAdvancedAnalytics duplicate_batch))
    as [s|] eqn:E; [|discriminate E].
  exists s. split; [reflexivity|].
  exact (proj2 (duplicates_never_one _ duplicate_batch _ _ (Permutation_refl _) E)).
Defined.

Lemma spikes_positive ts : forall m,
  map_positive m -> map_positive (fold_left spike_step ts m).
Proof.
  induction ts as [|t r IH]; intros m P; simpl; [exact P|].
  apply IH. now apply spike_step_positive.
Qed.

(** X8: the totals are never NaN and never negative, and every daily
    total is above 0. *)
Theorem totals_are_numbers
        (other : string -> option Z) (ts : list Transaction) (s : Summary) :
  getAnalyticsSummary other ts = Some s ->
  (is_nan (totalSpending s) = false /\ (totalSpending s <? 0)%float = false)
  /\ (is_nan (totalIncome s) = false /\ (totalIncome s <? 0)%float = false)
  /\ (forall sp, In sp (spikesData s) -> (0 <? spike_amount sp)%float = true).
Proof.
  intros H.
  destruct (summary_fields _ _ _ H) as (_ & -> & -> & _ & _ & -> & _).
  assert (Z : forall v, v = 0%float \/ positive_float v ->
                        is_nan v = false /\ (v <? 0)%float = false).
  { intros v [->|P]; [now vm_compute|].
    now destruct (positive_float_facts v P) as (? & _ & ?). }
  split; [|split].
  - apply Z. apply (sum_zero_or_positive (fun t => abs (amount t))); [|now left].
    intros t I. apply filter_In in I as [_ N]. now apply abs_of_negative.
  - apply Z. apply (sum_zero_or_positive (fun t => amount t)); [|now left].
    intros t I. apply filter_In in I as [_ N]. now apply positive_of_gt_zero.
  - intros sp I. apply In_sort, in_map_iff in I as ([d a] & <- & I). simpl.
    apply positive_float_facts.
    apply (spikes_positive ts [] ltac:(intros k v; discriminate) d a).
    apply Map_In_get; [|exact I]. apply spikes_NoDup. constructor.
Qed.

Lemma totals_are_numbers_witness :
  exists s, getAnalyticsSummary (fun _ => None) tie_batch = Some s
            /\ is_nan (totalSpending s) = false.
Proof.
  destruct (getAnalyticsSummary (fun _ => None) tie_batch) as [s|] eqn:E;
    [|discriminate E].
  exists s. split; [reflexivity|].
  exact (proj1 (proj1 (totals_are_numbers _ _ _ E))).
Defined.

(** X9: deposits and zero amounts play no part in the spending views:
    the category totals, the daily totals and the total spending are those
    of the records with a negative amount alone. *)
Theorem spending_views_ignore_deposits
        (other : string -> option Z) (ts : list Transaction) (s s' : Summary) :
  getAnalyticsSummary other ts = Some s ->
  getAnalyticsSummary other (spending ts) = Some s' ->
  getChartData (spending ts) = getChartData ts
  /\ spikesData s' = spikesData s
  /\ totalSpending s' = totalSpending s.
Proof.
  intros H H'.
  destruct (summary_fields _ _ _ H) as (_ & -> & _ & _ & _ & -> & _).
  destruct (summary_fields _ _ _ H') as (_ & -> & _ & _ & _ & -> & _).
  unfold getChartData, spikesMap_of, spending. rewrite filter_filter.
  rewrite (fold_left_filter spike_step)
    by (intros acc t N; unfold spike_step; now rewrite N).
  rewrite (fold_left_filter spending_step)
    by (intros [m|] t N; simpl; [now rewrite N|reflexivity]).
  repeat split.
Qed.

Lemma spending_views_ignore_deposits_witness :
  getChartData (spending tie_batch) = getChartData tie_batch.
Proof.
  destruct (getAnalyticsSummary (fun _ => None) tie_batch) as [s|] eqn:E;
    [|discriminate E].
  destruct (getAnalyticsSummary (fun _ => None) (spending tie_batch)) as [s'|] eqn:E';
    [|vm_compute in E'; discriminate E'].
  exact (proj1 (spending_views_ignore_deposits _ _ _ _ E E')).
Defined.

(** X10: the counts of the summary do not depend on the order of the
    records, which [extractTransactions] changes before the summary reads
    them. *)
Theorem summary_counts_ignore_order
        (other : string -> option Z) (ts ts' : list Transaction) (s s' : Summary) :
  Permutation ts ts' ->
  getAnalyticsSummary other ts = Some s ->
  getAnalyticsSummary other ts' = Some s' ->
  totalRecords s' = totalRecords s
  /\ duplicates s' = duplicates s
  /\ suspicious s' = suspicious s
  /\ List.length (anomalyData s') = List.length (anomalyData s).
Proof.
  intros P H H'.
  destruct (summary_fields _ _ _ H) as (-> & _ & _ & -> & -> & _ & ->).
  destruct (summary_fields _ _ _ H') as (-> & _ & _ & -> & -> & _ & ->).
  rewrite !(with_index_filter_length _ _ (fun t => 1 <? score_or_zero t)%float)
    by reflexivity.
  rewrite !(filter_length_perm _ _ _ P), (Permutation_length P). repeat split.
Qed.

Lemma summary_counts_ignore_order_witness :
  exists s s',
    getAnalyticsSummary (fun _ => None) scored_batch = Some s
    /\ getAnalyticsSummary (fun _ => None) (rev scored_batch) = Some s'
    /\ duplicates s' = duplicates s.
Proof.
  destruct (getAnalyticsSummary (fun _ => None) scored_batch) as [s|] eqn:E;
    [|discriminate E].
  destruct (getAnalyticsSummary (fun _ => None) (rev scored_batch)) as [s'|] eqn:E';
    [|vm_compute in E'; discriminate E'].
  exists s, s'. split; [reflexivity|]. split; [reflexivity|].
  exact (proj1 (proj2 (summary_counts_ignore_order _ _ _ _ _ (Permutation_rev _) E E'))).
Defined.

(** ** Properties of the sort for display *)







(** ** Properties of the handlers *)

Section ExtractionFacts.
Variable other : string -> option Z.
Variable outcome : nat -> File -> FileOutcome.

(** The loop, from a state that shows the analysis of what was gathered
    so far. *)
Lemma extract_loop_spec stale : forall fs i allTransactions st,
  transactions st = analyzeAndSort other allTransactions ->
  completedCount st = i ->
  let st' := extract_loop other outcome stale i fs allTransactions st in
  files st' = files st /\ isExtracting st' = false
  /\ transactions st'
     = analyzeAndSort other (allTransactions ++ gathered outcome i fs)%list
  /\ completedCount st' = i + processed outcome i fs
  /\ (processed outcome i fs = List.length fs -> error st' = error st)
  /\ (forall f m, nth_error fs (processed outcome i fs) = Some f ->
                  outcome (i + processed outcome i fs) f = Thrown m ->
                  error st'
                  = Some ("Error processing file " ++ digits_of (Z.of_nat (stale + 1))
                          ++ ": " ++ message_or_unknown m))
  /\ (processed outcome i fs < List.length fs ->
      exists f m, nth_error fs (processed outcome i fs) = Some f
                  /\ outcome (i + processed outcome i fs) f = Thrown m).
Proof.
  induction fs as [|f r IH]; intros i allTransactions st T C; cbn zeta.
  - simpl. rewrite app_nil_r, Nat.add_0_r.
    repeat split; try assumption; try easy; intros H; simpl in H; lia.
  - cbn [extract_loop processed gathered List.length].
    destruct (outcome i f) as [l| |m] eqn:O.
    + specialize (IH (S i) (allTransactions ++ l)%list
                     (mkState (files st) (isExtracting st)
                              (analyzeAndSort other (allTransactions ++ l)) (error st)
                              ("Processing " ++ file_name f ++ "...") (i + 1))
                     eq_refl ltac:(simpl; lia)).
      cbn zeta in IH. destruct IH as (F & X & T' & C' & E & Th & Ex).
      cbn [files error] in F, E. rewrite <- app_assoc in T'.
      replace (i + S (processed outcome (S i) r)) with (S i + processed outcome (S i) r)
        by lia.
      repeat split; try assumption.
      * intros H. apply E. lia.
      * intros H. apply Ex. lia.
    + specialize (IH (S i) allTransactions
                     (mkState (files st) (isExtracting st) (transactions st) (error st)
                              ("Processing " ++ file_name f ++ "...") (i + 1))
                     T ltac:(simpl; lia)).
      cbn zeta in IH. destruct IH as (F & X & T' & C' & E & Th & Ex).
      cbn [files error] in F, E.
      replace (i + S (processed outcome (S i) r)) with (S i + processed outcome (S i) r)
        by lia.
      repeat split; try assumption.
      * intros H. apply E. lia.
      * intros H. apply Ex. lia.
    + cbn [files isExtracting transactions completedCount error nth_error].
      rewrite app_nil_r, !Nat.add_0_r. repeat split; try assumption.
      * intros H. lia.
      * intros f' m' [= <-] O'. rewrite O in O'. now injection O' as <-.
      * intros _. now exists f, m.
Qed.


(** X13: when the run stops on an exception, the message numbers the file
    by the completed count of the state the run started from, plus one,
    and not by the place of the file that failed. *)
Theorem error_message_counts_from_before (st : AppState) (k : nat) (f : File)
        (m : option string) :
  nth_error (files st) k = Some f ->
  processed outcome 0 (files st) = k ->
  outcome k f = Thrown m ->
  error (extractTransactions other outcome st)
  = Some ("Error processing file " ++ digits_of (Z.of_nat (completedCount st + 1))
          ++ ": " ++ message_or_unknown m).
Proof.
  intros N P O. unfold extractTransactions.
  destruct (files st) as [|g r] eqn:Fs; [now destruct k|].
  destruct (extract_loop_spec (completedCount st) (g :: r) 0 []
              (mkState (g :: r) true [] None (progress st) 0) eq_refl eq_refl)
    as (_ & _ & _ & _ & _ & Th & _).
  apply (Th f m); rewrite P; assumption.
Qed.

End ExtractionFacts.


Lemma error_message_counts_from_before_witness :
  error (extractTransactions (fun _ => None) sample_outcome sample_state)
  = Some "Error processing file 4: quota exceeded".
Proof.
  rewrite (error_message_counts_from_before (fun _ => None) sample_outcome sample_state
             1 (mkFile "feb.png" "image/png") (Some "quota exceeded")
             eq_refl eq_refl eq_refl).
  now vm_compute.
Defined.

Lemma filter_all_length {A : Type} (p : A -> bool) (l : list A) :
  List.length (filter p l) = List.length l <-> Forall (fun x => p x = true) l.
Proof.
  induction l as [|x r IH]; simpl; [split; [constructor|reflexivity]|].
  pose proof (filter_length_le p r) as B.
  destruct (p x) eqn:P; simpl; split; intros H.
  - constructor; [exact P|]. apply IH. lia.
  - inversion H; subst. f_equal. now apply IH.
  - lia.
  - inversion H; subst. congruence.
Qed.

Lemma filter_some_length {A : Type} (p : A -> bool) (l : list A) :
  (0 <? List.length (filter p l))%nat = existsb p l.
Proof.
  induction l as [|x r IH]; simpl; [reflexivity|].
  destruct (p x); simpl; [reflexivity|exact IH].
Qed.

Lemma filter_none {A : Type} (p : A -> bool) (l : list A) :
  existsb p l = false -> filter p l = [].
Proof.
  induction l as [|x r IH]; simpl; [reflexivity|].
  intros H. apply orb_false_iff in H as [H1 H2]. rewrite H1. now apply IH.
Qed.

(** X14: [processFiles] appends exactly the PDF and image files, in their
    order; the error is cleared exactly when no file was rejected; the
    previous results and the completed count are reset when at least one
    file was accepted and kept otherwise. *)
Theorem processFiles_accepts_pdf_and_images (st : AppState) (newFiles : list File) :
  files (processFiles st newFiles) = (files st ++ filter validFile newFiles)%list
  /\ (error (processFiles st newFiles) = None
      <-> Forall (fun f => validFile f = true) newFiles)
  /\ (existsb validFile newFiles = true ->
      transactions (processFiles st newFiles) = []
      /\ completedCount (processFiles st newFiles) = 0)
  /\ (existsb validFile newFiles = false ->
      transactions (processFiles st newFiles) = transactions st
      /\ completedCount (processFiles st newFiles) = completedCount st).
Proof.
  unfold processFiles. rewrite filter_some_length.
  assert (E : (if (List.length (filter validFile newFiles) =? List.length newFiles)%nat
               then None
               else Some "Some files were skipped. Please upload only PDFs or images.")
              = None <-> Forall (fun f => validFile f = true) newFiles).
  { rewrite <- filter_all_length.
    destruct (Nat.eqb_spec (List.length (filter validFile newFiles)) (List.length newFiles));
      split; intros H; try reflexivity; try assumption; try discriminate H.
    contradiction. }
  destruct (existsb validFile newFiles) eqn:X; cbn [files error transactions completedCount].
  - split; [reflexivity|]. split; [exact E|].
    split; [intros _; split; reflexivity|intros H; discriminate H].
  - rewrite (filter_none _ _ X) in *. rewrite app_nil_r.
    split; [reflexivity|]. split; [exact E|].
    split; [intros H; discriminate H|intros _; split; reflexivity].
Qed.

Lemma processFiles_accepts_pdf_and_images_witness :
  transactions (processFiles sample_state
                  [mkFile "notes.txt" "text/plain"; mkFile "apr.pdf" "application/pdf"])
  = []
  /\ completedCount (processFiles sample_state
                       [mkFile "notes.txt" "text/plain"; mkFile "apr.pdf" "application/pdf"])
     = 0.
Proof.
  apply (processFiles_accepts_pdf_and_images sample_state
           [mkFile "notes.txt" "text/plain"; mkFile "apr.pdf" "application/pdf"]).
  reflexivity.
Defined.

Lemma with_index_keep_all {A : Type} (l : list A) : forall k j,
  j < k ->
  map snd (filter (fun p => negb (fst p =? j)%nat) (with_index k l)) = l.
Proof.
  induction l as [|x r IH]; intros k j L; simpl; [reflexivity|].
  replace (k =? j)%nat with false by (symmetry; apply Nat.eqb_neq; lia).
  simpl. f_equal. apply IH. lia.
Qed.

Lemma remove_at_from {A : Type} (l : list A) : forall k i,
  map snd (filter (fun p => negb (fst p =? k + i)%nat) (with_index k l))
  = (firstn i l ++ skipn (S i) l)%list.
Proof.
  induction l as [|x r IH]; intros k i; simpl.
  - now destruct i.
  - destruct i as [|i]; simpl.
    + rewrite Nat.add_0_r, Nat.eqb_refl. simpl. apply with_index_keep_all. lia.
    + replace (k =? k + S i)%nat with false by (symmetry; apply Nat.eqb_neq; lia).
      simpl. f_equal. replace (k + S i) with (S k + i) by lia. apply IH.
Qed.

Lemma remove_at_spec {A : Type} (i : nat) (l : list A) :
  remove_at i l = (firstn i l ++ skipn (S i) l)%list.
Proof. exact (remove_at_from l 0 i). Qed.

(** X15: [removeFile] takes out the file at the given place and keeps the
    others in order; a place beyond the list leaves the list as it is.
    The results, the error and the completed count are reset exactly when
    one file was listed, whatever the place, and kept otherwise. *)
Theorem removeFile_takes_one_out (st : AppState) (index : nat) :
  files (removeFile st index)
  = (firstn index (files st) ++ skipn (S index) (files st))%list
  /\ (index < List.length (files st) ->
      S (List.length (files (removeFile st index))) = List.length (files st))
  /\ (List.length (files st) <= index -> files (removeFile st index) = files st)
  /\ (List.length (files st) = 1 ->
      transactions (removeFile st index) = []
      /\ error (removeFile st index) = None
      /\ completedCount (removeFile st index) = 0)
  /\ (List.length (files st) <> 1 ->
      transactions (removeFile st index) = transactions st
      /\ error (removeFile st index) = error st
      /\ completedCount (removeFile st index) = completedCount st).
Proof.
  assert (F : files (removeFile st index)
              = (firstn index (files st) ++ skipn (S index) (files st))%list).
  { unfold removeFile. destruct (List.length (files st) =? 1)%nat;
      cbn [files]; apply remove_at_spec. }
  split; [exact F|]. rewrite F. split; [|split; [|split]].
  - intros L. rewrite length_app, length_firstn, length_skipn. lia.
  - intros L. rewrite firstn_all2 by exact L. rewrite skipn_all2 by lia.
    apply app_nil_r.
  - intros L. unfold removeFile. apply Nat.eqb_eq in L. rewrite L. repeat split.
  - intros L. unfold removeFile. apply Nat.eqb_neq in L. rewrite L. repeat split.
Qed.

Lemma removeFile_takes_one_out_witness :
  S (List.length (files (removeFile sample_state 1))) = List.length (files sample_state)
  /\ transactions (removeFile (mkState [mkFile "jan.pdf" "application/pdf"] false
                                       days_batch None "" 1) 7) = [].
Proof.
  split.
  - apply (removeFile_takes_one_out sample_state 1). simpl. lia.
  - apply (removeFile_takes_one_out
             (mkState [mkFile "jan.pdf" "application/pdf"] false days_batch None "" 1) 7).
    reflexivity.
Defined.

(** *** The state between two actions *)

Lemma analysed_perform (data : list Transaction) :
  Forall analysed (performAdvancedAnalytics data).
Proof.
  rewrite perform_map. apply Forall_forall. intros t H.
  apply in_map_iff in H as (x & <- & _).
  unfold analysed. cbn [analyzed duplicateFlag anomalyScore isRecurring].
  repeat split; discriminate.
Qed.

Lemma analysed_sorted (other : string -> option Z) (all : list Transaction) :
  Forall analysed (analyzeAndSort other all).
Proof.
  unfold analyzeAndSort.
  eapply Permutation_Forall; [symmetry; apply sort_perm|apply analysed_perform].
Qed.

Lemma Forall_remove {A : Type} (P : A -> Prop) (l : list A) :
  Forall P l -> forall i, Forall P (firstn i l ++ skipn (S i) l)%list.
Proof.
  induction 1 as [|x r Px Pr IH]; intros i.
  - destruct i; constructor.
  - destruct i as [|i]; simpl; [exact Pr|]. constructor; [exact Px|apply IH].
Qed.

Lemma processFiles_consistent (st : AppState) (newFiles : list File) :
  consistent st -> consistent (processFiles st newFiles).
Proof.
  unfold consistent, processFiles. rewrite filter_some_length.
  intros (F & E & X & T).
  destruct (existsb validFile newFiles) eqn:Ex;
    cbn [files transactions completedCount isExtracting].
  - split; [|split; [intros _; split; reflexivity|split; [exact X|constructor]]].
    apply Forall_app. split; [exact F|].
    apply Forall_forall. intros f H. now apply filter_In in H.
  - split; [exact F|]. split; [exact E|]. split; [exact X|exact T].
Qed.

Lemma removeFile_consistent (st : AppState) (index : nat) :
  consistent st -> consistent (removeFile st index).
Proof.
  unfold consistent, removeFile. intros (F & E & X & T).
  destruct (Nat.eqb_spec (List.length (files st)) 1) as [L|L];
    cbn [files transactions completedCount isExtracting]; rewrite remove_at_spec.
  - split; [now apply Forall_remove|].
    split; [intros _; split; reflexivity|split; [exact X|constructor]].
  - split; [now apply Forall_remove|]. split; [|split; [exact X|exact T]].
    intros N. apply E.
    apply (f_equal (@List.length File)) in N.
    rewrite length_app, length_firstn, length_skipn in N. simpl in N.
    destruct (files st) as [|f r]; [reflexivity|]. simpl in *. lia.
Qed.

Lemma extract_consistent (other : string -> option Z)
      (outcome : nat -> File -> FileOutcome) (st : AppState) :
  consistent st -> consistent (extractTransactions other outcome st).
Proof.
  intros C. unfold extractTransactions.
  destruct (files st) as [|f r] eqn:Fs; [exact C|].
  destruct (extract_loop_spec other outcome (completedCount st) (f :: r) 0 []
              (mkState (f :: r) true [] None (progress st) 0) eq_refl eq_refl)
    as (F & X & T & _).
  cbn zeta in *. cbn [files] in F. unfold consistent. rewrite F, X, T.
  destruct C as (V & _). rewrite Fs in V.
  split; [exact V|]. split; [intros N; discriminate N|].
  split; [reflexivity|apply analysed_sorted].
Qed.

(** X16: whatever the user does, in any order (adding files, removing a
    file, running an extraction to its end), the state between two actions
    lists only PDF and image files, shows no result and no completed count
    when no file is listed, has the extracting mark off, and shows only
    records that carry the three analytics fields. *)
Theorem handlers_keep_state_consistent
        (other : string -> option Z) (actions : list Action) :
  consistent (fold_left (act other) actions initialState).
Proof.
  assert (I : consistent initialState).
  { unfold consistent, initialState; simpl. repeat split; constructor. }
  revert I. generalize initialState.
  induction actions as [|a r IH]; intros st C; simpl; [exact C|].
  apply IH. destruct a as [l|i|o]; simpl.
  - now apply processFiles_consistent.
  - now apply removeFile_consistent.
  - now apply extract_consistent.
Qed.

(** ** Properties of [downloadCSV] *)

Lemma string_app_assoc (a b c : string) : (a ++ b) ++ c = a ++ b ++ c.
Proof. induction a as [|x r IH]; simpl; [reflexivity|now rewrite IH]. Qed.

(** The escaped text, closed by a double quote, reads back as the text when
    what follows does not start with a double quote. *)
Lemma read_body_escape (s rest : string) :
  match rest with
  | EmptyString => True
  | String c _ => Ascii.eqb c dquote = false
  end ->
  read_body (escape_quotes s ++ String dquote rest) = Some (s, rest).
Proof.
  intros R. induction s as [|c r IH].
  - simpl. destruct rest as [|c' r']; [reflexivity|]. now rewrite R.
  - cbn [escape_quotes]. destruct (Ascii.eqb c dquote) eqn:E.
    + apply Ascii.eqb_eq in E. subst c.
      change (read_body (String dquote (String dquote
                (escape_quotes r ++ String dquote rest)))
              = Some (String dquote r, rest)).
      cbn [read_body]. rewrite Ascii.eqb_refl. cbn [read_body] in IH.
      now rewrite IH.
    + change (read_body (String c (escape_quotes r ++ String dquote rest))
              = Some (String c r, rest)).
      cbn [read_body]. rewrite E. cbn [read_body] in IH. now rewrite IH.
Qed.

Lemma read_quoted_quoted (s rest : string) :
  match rest with
  | EmptyString => True
  | String c _ => Ascii.eqb c dquote = false
  end ->
  read_quoted (quoted s ++ rest) = Some (s, rest).
Proof.
  intros R. unfold quoted.
  change (read_quoted (String dquote ((escape_quotes s ++ String dquote EmptyString) ++ rest))
          = Some (s, rest)).
  rewrite string_app_assoc. cbn [read_quoted]. rewrite Ascii.eqb_refl.
  now apply read_body_escape.
Qed.

(** X17: a row of the export is the date, a comma, the quoted description
    and the rest; the two quoted fields read back as the description and
    the notes of the record under the usual rule for quoted fields (two
    double quotes stand for one, a single one ends the field), whatever
    characters they hold. *)
Theorem csv_quoted_fields_read_back (t : Transaction) :
  csv_row t = date t ++ "," ++ quoted (description t) ++ after_description t
  /\ read_quoted (quoted (description t) ++ after_description t)
     = Some (description t, after_description t)
  /\ read_quoted (quoted (notes t)) = Some (notes t, EmptyString).
Proof.
  split; [reflexivity|]. split.
  - apply read_quoted_quoted. reflexivity.
  - assert (E : quoted (notes t) = quoted (notes t) ++ EmptyString).
    { generalize (quoted (notes t)). intros q.
      induction q as [|c r IH]; simpl; [reflexivity|now rewrite <- IH]. }
    rewrite E. now apply read_quoted_quoted.
Qed.

(** ** The categories of the chart *)











